(** * An infix calculator with variables: tokenizer, recursive-descent
    parser, symbol table, evaluator and the driver [process_expression]

    A shallow embedding of [calculator.py].

    - Python [str] values are [string]s whose characters are the code
      points below 256 (the 8-bit [ascii] of the Standard Library).
    - Python [float] is IEEE binary64: the kernel's primitive [float].
    - A raised exception is a value of [exception], carried by [Raise];
      an exception that no [except] clause of [process_expression] catches
      is the outcome [Uncaught].
    - The symbol table is its dictionary [self.table], from names to what
      [set] stores: the [float]s [evaluate] returns (or [None]).
    - The files the program writes ([tokens.txt], [parse_tree.txt],
      [error.txt], [symbol_table.txt]) and the menu of [main] are not part
      of the model: what is modelled is the value each function returns
      and the dictionary held by the symbol table.  Writing a file is
      taken to succeed, and the interpreter's recursion limit is taken
      never to be reached. *)

From Stdlib Require Import ZArith List Ascii String Bool Lia.
From Stdlib Require Import PrimFloat SpecFloat FloatOps.
From stdpp Require Import gmap strings.
Import ListNotations.

Local Open Scope string_scope.
Local Open Scope list_scope.
#[local] Arguments String.append !s1 s2 : simpl nomatch.
#[local] Arguments Ascii.eqb : simpl never.

(** ** Characters and the string methods the program calls *)

Module Chars.

Definition code (c : ascii) : nat := nat_of_ascii c.

Definition between (lo hi n : nat) : bool := (lo <=? n)%nat && (n <=? hi)%nat.

(** [\d] *)
Definition is_digit (c : ascii) : bool := between 48 57 (code c).

(** [[a-zA-Z]] *)
Definition is_letter (c : ascii) : bool :=
  between 65 90 (code c) || between 97 122 (code c).

(** [\w] of a [str] pattern: [str.isalnum] or an underscore.  Below 256 the
    alphanumeric code points outside ASCII are the ones listed here. *)
Definition is_word (c : ascii) : bool :=
  let n := code c in
  is_digit c || is_letter c || (n =? 95)%nat
  || (n =? 170)%nat || (n =? 178)%nat || (n =? 179)%nat || (n =? 181)%nat
  || (n =? 185)%nat || (n =? 186)%nat || between 188 190 n
  || between 192 214 n || between 216 246 n || between 248 255 n.

(** [[+\-*/]] *)
Definition is_operator (c : ascii) : bool :=
  let n := code c in
  (n =? 43)%nat || (n =? 45)%nat || (n =? 42)%nat || (n =? 47)%nat.

(** [[()]] *)
Definition is_paren (c : ascii) : bool :=
  let n := code c in (n =? 40)%nat || (n =? 41)%nat.

(** [=] *)
Definition is_assign (c : ascii) : bool := (code c =? 61)%nat.

(** The characters that some token pattern can match, in some position. *)
Definition in_pattern (c : ascii) : bool :=
  is_digit c || Ascii.eqb c "." || is_operator c || is_paren c || is_word c
  || is_assign c.

(** [str.isspace], the characters [str.strip] removes. *)
Definition is_space (c : ascii) : bool :=
  let n := code c in
  between 9 13 n || between 28 32 n || (n =? 133)%nat || (n =? 160)%nat.

End Chars.

Module Str.

(** [sub in s] for a one-character [sub]. *)
Fixpoint contains (c : ascii) (s : string) : bool :=
  match s with
  | EmptyString => false
  | String d s' => Ascii.eqb c d || contains c s'
  end.

(** [sub in s]: [sub] is a substring of [s]. *)
Fixpoint substring_of (sub s : string) : bool :=
  String.prefix sub s
  || match s with
     | EmptyString => false
     | String _ s' => substring_of sub s'
     end.

Fixpoint lstrip (s : string) : string :=
  match s with
  | EmptyString => EmptyString
  | String c s' => if Chars.is_space c then lstrip s' else s
  end.

Fixpoint rstrip (s : string) : string :=
  match s with
  | EmptyString => EmptyString
  | String c s' =>
      match rstrip s' with
      | EmptyString => if Chars.is_space c then EmptyString else String c EmptyString
      | t => String c t
      end
  end.

(** [s.strip()] *)
Definition strip (s : string) : string := rstrip (lstrip s).

(** [s.split(sep)] for a one-character separator: the segments between
    the occurrences of [sep], all of them; never an empty list. *)
Fixpoint split (sep : ascii) (s : string) : list string :=
  match s with
  | EmptyString => [EmptyString]
  | String c s' =>
      if Ascii.eqb c sep then EmptyString :: split sep s'
      else match split sep s' with
           | seg :: segs => String c seg :: segs
           | [] => [String c EmptyString]
           end
  end.

(** The text before the first [sep] (all of [s] when there is none). *)
Fixpoint before (sep : ascii) (s : string) : string :=
  match s with
  | EmptyString => EmptyString
  | String c s' => if Ascii.eqb c sep then EmptyString else String c (before sep s')
  end.

(** The text after the first [sep] (empty when there is none). *)
Fixpoint after (sep : ascii) (s : string) : string :=
  match s with
  | EmptyString => EmptyString
  | String c s' => if Ascii.eqb c sep then s' else after sep s'
  end.

(** The longest prefix whose characters satisfy [p], and what follows it:
    a greedy [p*]. *)
Fixpoint span (p : ascii -> bool) (s : string) : string * string :=
  match s with
  | EmptyString => (EmptyString, EmptyString)
  | String c s' =>
      if p c then let '(a, b) := span p s' in (String c a, b)
      else (EmptyString, s)
  end.

End Str.

(** ** Tokenizer *)

Inductive token_type : Set := NUMBER | OPERATOR | PAREN | IDENTIFIER | ASSIGN.

(** A token is the pair [(token_type, token_value)]. *)
Abbreviation token := (token_type * string)%type.

Module Tokenizer.

(** [\d+(\.\d+)?] at the start of [s]: the text matched and the rest. *)
Definition match_number (s : string) : option (string * string) :=
  let '(int_part, rest) := Str.span Chars.is_digit s in
  match int_part with
  | EmptyString => None
  | _ =>
      match rest with
      | EmptyString => Some (int_part, rest)
      | String c rest' =>
          if Ascii.eqb c "." then
            let '(frac, rest'') := Str.span Chars.is_digit rest' in
            match frac with
            | EmptyString => Some (int_part, rest)
            | _ => Some (int_part +:+ String c frac, rest'')
            end
          else Some (int_part, rest)
      end
  end.

(** One match of [token_regex] at the start of [s]: the alternatives are
    tried in the order of [token_patterns]; [lastgroup] is the alternative
    that matched. *)
Definition match_token (s : string) : option (token * string) :=
  match match_number s with
  | Some (text, rest) => Some ((NUMBER, text), rest)
  | None =>
      match s with
      | EmptyString => None
      | String c rest =>
          if Chars.is_operator c then Some ((OPERATOR, String c EmptyString), rest)
          else if Chars.is_paren c then Some ((PAREN, String c EmptyString), rest)
          else if Chars.is_letter c then
            let '(w, rest') := Str.span Chars.is_word rest in
            Some ((IDENTIFIER, String c w), rest')
          else if Chars.is_assign c then Some ((ASSIGN, String c EmptyString), rest)
          else None
      end
  end.

(** [token_regex.finditer]: scan from the left; where the pattern matches,
    yield the match and go on after it; where it does not, move one
    character on.  [fuel] bounds the number of scanning steps. *)
Fixpoint finditer (fuel : nat) (s : string) : list token :=
  match fuel with
  | O => []
  | S fuel' =>
      match s with
      | EmptyString => []
      | String _ s' =>
          match match_token s with
          | Some (tok, rest) => tok :: finditer fuel' rest
          | None => finditer fuel' s'
          end
      end
  end.

(** Every step consumes a character, so the length of the input is fuel
    enough ([finditer_fuel] below). *)
Definition tokenize (input_string : string) : list token :=
  finditer (String.length input_string) input_string.

(** [tokenize_to_file] returns what [tokenize] returns. *)
Definition tokenize_to_file (input_string : string) : list token :=
  tokenize input_string.

End Tokenizer.

(** ** Values, exceptions and expression trees *)

(** What a Python expression of the program can evaluate to: a [float],
    or [None]. *)
Inductive value : Set :=
  | VFloat (x : float)
  | VNone.

(** The exceptions the program can raise, each with the text [str(e)]. *)
Inductive exception : Set :=
  | SyntaxError (msg : string)
  | TypeError (msg : string)
  | NameError (msg : string)
  | ValueError (msg : string)
  | ZeroDivisionError (msg : string)
  | IndexError (msg : string).

(** A call either returns or raises. *)
Inductive result (A : Type) : Type :=
  | Return (a : A)
  | Raise (e : exception).
Arguments Return {A} a.
Arguments Raise {A} e.

(** The tuples the parser builds: [('number', text)],
    [('identifier', name)], [('bin_op', op, left, right)]; and [None],
    which [parse_expression] returns after a syntax error and which can
    so end up inside a tree. *)
Inductive node : Set :=
  | number (text : string)
  | identifier (name : string)
  | bin_op (op : string) (left right : node)
  | None_node.

Module Repr.

Definition type_name (k : token_type) : string :=
  match k with
  | NUMBER => "NUMBER"
  | OPERATOR => "OPERATOR"
  | PAREN => "PAREN"
  | IDENTIFIER => "IDENTIFIER"
  | ASSIGN => "ASSIGN"
  end.

(** [repr] of a [str] without quotes, backslashes or unprintable
    characters (every token value the tokenizer yields is one). *)
Definition str (s : string) : string := "'" +:+ s +:+ "'".

(** [str] of the tuple [(token_type, token_value)]. *)
Definition tuple (tok : token) : string :=
  "(" +:+ str (type_name (fst tok)) +:+ ", " +:+ str (snd tok) +:+ ")".

Definition value_type (v : value) : string :=
  match v with
  | VFloat _ => "float"
  | VNone => "NoneType"
  end.

End Repr.

Definition not_subscriptable : exception :=
  TypeError "'NoneType' object is not subscriptable".

(** ** Parser *)

Module Parser.

(** The fields of a [Parser] object.  [error] is [None] or the text of the
    last syntax error. *)
Record t : Set := mk { tokens : list token; pos : nat; error : option string }.

(** [Parser(tokens)] *)
Definition init (tokens : list token) : t :=
  {| tokens := tokens; pos := 0; error := None |}.

Definition peek (self : t) : option token := tokens self !! pos self.

Definition consume (self : t) : t :=
  {| tokens := tokens self; pos := S (pos self); error := error self |}.

Definition set_error (self : t) (msg : string) : t :=
  {| tokens := tokens self; pos := pos self; error := Some msg |}.

(** Truth value of [self.error]: [None] and the empty text are false. *)
Definition error_is_true (self : t) : bool :=
  match error self with
  | Some (String _ _) => true
  | _ => false
  end.

(** A method call: from the object's state to what the call returns or
    raises and the state it leaves.  [None] stands for a call that did not
    finish within the given number of nested calls and loop rounds. *)
Definition call : Type := t -> option (result node * t).

Definition bind (m : call) (k : node -> call) : call :=
  fun self =>
    match m self with
    | Some (Return n, self') => k n self'
    | other => other
    end.

(** [try: ... except SyntaxError as se: self.error = str(se); return None] *)
Definition catch_syntax_error (m : call) : call :=
  fun self =>
    match m self with
    | Some (Raise (SyntaxError msg), self') => Some (Return None_node, set_error self' msg)
    | other => other
    end.

(** The three methods and their two [while] loops.  In a loop, [n] is the
    tree built so far. *)
Fixpoint parse_expression (fuel : nat) : call :=
  match fuel with
  | O => fun _ => None
  | S fuel' =>
      catch_syntax_error (bind (parse_term fuel') (expression_loop fuel'))
  end
with expression_loop (fuel : nat) (n : node) : call :=
  match fuel with
  | O => fun _ => None
  | S fuel' => fun self =>
      match peek self with
      | Some tok =>
          if Str.substring_of (snd tok) "+-" then
            bind (parse_term fuel')
                 (fun right => expression_loop fuel' (bin_op (snd tok) n right))
                 (consume self)
          else Some (Return n, self)
      | None => Some (Return n, self)
      end
  end
with parse_term (fuel : nat) : call :=
  match fuel with
  | O => fun _ => None
  | S fuel' => bind (parse_factor fuel') (term_loop fuel')
  end
with term_loop (fuel : nat) (n : node) : call :=
  match fuel with
  | O => fun _ => None
  | S fuel' => fun self =>
      match peek self with
      | Some tok =>
          if Str.substring_of (snd tok) "*/" then
            bind (parse_factor fuel')
                 (fun right => term_loop fuel' (bin_op (snd tok) n right))
                 (consume self)
          else Some (Return n, self)
      | None => Some (Return n, self)
      end
  end
with parse_factor (fuel : nat) : call :=
  match fuel with
  | O => fun _ => None
  | S fuel' => fun self =>
      match peek self with
      | None => Some (Raise not_subscriptable, self)
      | Some tok =>
          match fst tok with
          | NUMBER => Some (Return (number (snd tok)), consume self)
          | IDENTIFIER => Some (Return (identifier (snd tok)), consume self)
          | _ =>
              if String.eqb (snd tok) "(" then
                bind (parse_expression fuel')
                     (fun expr self' =>
                        match peek self' with
                        | Some tok' =>
                            if String.eqb (snd tok') ")"
                            then Some (Return expr, consume self')
                            else Some (Raise (SyntaxError "Unmatched parenthesis"), self')
                        | None => Some (Raise (SyntaxError "Unmatched parenthesis"), self')
                        end)
                     (consume self)
              else Some (Raise (SyntaxError ("Unexpected token: " +:+ Repr.tuple tok)), self)
          end
      end
  end.

(** Nested calls and loop rounds that suffice for a parser with [k]
    tokens ahead ([ParserFacts.terminates] below). *)
Definition enough (k : nat) : nat := 3 * k + 3.

Definition ahead (self : t) : nat := length (tokens self) - pos self.

(** [self.parse_expression()] *)
Definition run_parse_expression : call :=
  fun self => parse_expression (enough (ahead self)) self.

(** [self.parse_to_file(filename)]: [None] when an error was recorded,
    else the tree. *)
Definition parse_to_file : call :=
  bind run_parse_expression
       (fun parse_tree self =>
          if error_is_true self then Some (Return None_node, self)
          else Some (Return parse_tree, self)).

End Parser.

(** ** Symbol table *)

Module SymbolTable.

(** The dictionary [self.table]. *)
Abbreviation t := (gmap string value).

(** [self.table[variable] = value] (and [save], which writes the file). *)
Definition set (self : t) (variable : string) (v : value) : t :=
  <[variable := v]> self.

(** [self.table.get(variable, None)] *)
Definition get (self : t) (variable : string) : value :=
  match self !! variable with
  | Some v => v
  | None => VNone
  end.

End SymbolTable.

(** ** Evaluation engine *)

Module Float.

Definition digit (c : ascii) : Z := Z.of_nat (Chars.code c - 48).

(** The number a run of decimal digits writes, after the digits [acc]. *)
Fixpoint digits (acc : Z) (s : string) : Z :=
  match s with
  | EmptyString => acc
  | String c s' => digits (10 * acc + digit c) s'
  end.

Definition exact (n : Z) : spec_float :=
  match n with
  | Z0 => S754_zero false
  | Zpos p => S754_finite false p 0
  | Zneg p => S754_finite true p 0
  end.

(** The binary64 number nearest to [n / 10^k] (ties to even). *)
Definition nearest (n : Z) (k : nat) : float :=
  SF2Prim (SFdiv prec emax (exact n) (exact (10 ^ Z.of_nat k))).

(** [float(text)] for the texts the [NUMBER] pattern matches, digits with
    an optional fraction; for any other text the model raises
    [ValueError] (Python's [float] accepts more, such as signs and
    exponents, but the parser takes the text of a [number] node from a
    [NUMBER] token, and the tokenizer's [NUMBER] tokens hold no other
    texts: [tokenize_numbers_literal] and [process_expression_regular]
    below). *)
Definition of_str (text : string) : result float :=
  match Tokenizer.match_number text with
  | Some (_, EmptyString) =>
      let '(int_part, rest) := Str.span Chars.is_digit text in
      match rest with
      | EmptyString => Return (nearest (digits 0 int_part) 0)
      | String _ frac =>
          Return (nearest (digits (digits 0 int_part) frac) (String.length frac))
      end
  | _ => Raise (ValueError ("could not convert string to float: " +:+ Repr.str text))
  end.

(** [b == 0.0] *)
Definition is_zero (b : float) : bool := PrimFloat.eqb b 0%float.

End Float.

Definition unsupported_operand (op : string) (a b : value) : exception :=
  TypeError ("unsupported operand type(s) for " +:+ op +:+ ": "
             +:+ Repr.str (Repr.value_type a) +:+ " and " +:+ Repr.str (Repr.value_type b)).

(** [left_val op right_val] for the four operators.  Python's float
    division raises when the divisor is zero. *)
Definition arith (op : string) (f : float -> float -> result float)
    (a b : value) : result value :=
  match a, b with
  | VFloat x, VFloat y =>
      match f x y with
      | Return z => Return (VFloat z)
      | Raise e => Raise e
      end
  | _, _ => Raise (unsupported_operand op a b)
  end.

Definition division_by_zero : exception :=
  ZeroDivisionError "float division by zero".

Definition float_div (x y : float) : result float :=
  if Float.is_zero y then Raise division_by_zero
  else Return (PrimFloat.div x y).

Fixpoint evaluate (n : node) (symbol_table : SymbolTable.t) : result value :=
  match n with
  | None_node => Raise not_subscriptable
  | number text =>
      match Float.of_str text with
      | Return x => Return (VFloat x)
      | Raise e => Raise e
      end
  | identifier name =>
      match SymbolTable.get symbol_table name with
      | VNone => Raise (NameError ("Undefined variable: " +:+ name))
      | v => Return v
      end
  | bin_op op lhs rhs =>
      match evaluate lhs symbol_table with
      | Raise e => Raise e
      | Return left_val =>
          match evaluate rhs symbol_table with
          | Raise e => Raise e
          | Return right_val =>
              if String.eqb op "+" then
                arith op (fun x y => Return (PrimFloat.add x y)) left_val right_val
              else if String.eqb op "-" then
                arith op (fun x y => Return (PrimFloat.sub x y)) left_val right_val
              else if String.eqb op "*" then
                arith op (fun x y => Return (PrimFloat.mul x y)) left_val right_val
              else if String.eqb op "/" then
                arith op float_div left_val right_val
              else Return VNone
          end
      end
  end.

(** ** Main program *)

(** What [process_expression] does with a line: the text it returns, by
    the format string that builds it, or the exception that leaves it. *)
Inductive outcome : Set :=
  | Assigned (variable : string) (v : value)     (* f"{variable} = {value}" *)
  | Result (v : value)                           (* f"Result: {result}" *)
  | Parsing_error (err : option string)          (* f"Parsing error: {parser.error}" *)
  | Evaluation_error (e : exception)             (* f"Evaluation error: {e}" *)
  | Uncaught (e : exception).                    (* no [except] clause catches [e] *)

(** A line that ends without a result: an error text, or an exception. *)
Definition is_failure (o : outcome) : bool :=
  match o with
  | Assigned _ _ | Result _ => false
  | _ => true
  end.

(** The text left of the first [=], stripped. *)
Definition variable_of (line : string) : string :=
  Str.strip (Str.before "=" line).

(** The text between the first [=] and the next [=] (or the end of the
    line), stripped. *)
Definition expression_of (line : string) : string :=
  Str.strip (Str.before "=" (Str.after "=" line)).

(** All the text after the first [=], stripped. *)
Definition remainder_of (line : string) : string :=
  Str.strip (Str.after "=" line).

(** The two texts an assignment line is cut into: [parts[0].strip()] and
    [parts[1].strip()] of [input_string.split('=')]. *)
Definition assignment_parts (input_string : string) : result (string * string) :=
  match Str.split "=" input_string with
  | part0 :: part1 :: _ => Return (Str.strip part0, Str.strip part1)
  | _ => Raise (IndexError "list index out of range")
  end.

(** The assignment branch of [process_expression], from the two texts on:
    the right-hand side is tokenized, parsed and evaluated, and the value
    is stored under [variable]. *)
Definition process_assignment (variable expression : string)
    (symbol_table : SymbolTable.t) : option (outcome * SymbolTable.t) :=
  let tokens := Tokenizer.tokenize expression in
  match Parser.run_parse_expression (Parser.init tokens) with
  | None => None
  | Some (Raise e, _) => Some (Uncaught e, symbol_table)
  | Some (Return parse_tree, parser) =>
      match parse_tree, Parser.error_is_true parser with
      | None_node, _ | _, true =>
          Some (Parsing_error (Parser.error parser), symbol_table)
      | _, false =>
          match evaluate parse_tree symbol_table with
          | Return v =>
              Some (Assigned variable v, SymbolTable.set symbol_table variable v)
          | Raise e => Some (Evaluation_error e, symbol_table)
          end
      end
  end.

(** The other branch: the tokens of the whole line are parsed and the tree
    is evaluated. *)
Definition process_plain (tokens : list token) (symbol_table : SymbolTable.t)
  : option (outcome * SymbolTable.t) :=
  match Parser.parse_to_file (Parser.init tokens) with
  | None => None
  | Some (Raise e, _) => Some (Uncaught e, symbol_table)
  | Some (Return parse_tree, parser) =>
      if Parser.error_is_true parser then
        Some (Parsing_error (Parser.error parser), symbol_table)
      else
        match evaluate parse_tree symbol_table with
        | Return v => Some (Result v, symbol_table)
        | Raise e => Some (Evaluation_error e, symbol_table)
        end
  end.

(** [process_expression(input_string, tokenizer, symbol_table)]: the
    outcome and the symbol table afterwards.  [None] only if the parser
    did not finish, which does not happen ([process_expression_total]). *)
Definition process_expression (input_string : string) (symbol_table : SymbolTable.t)
  : option (outcome * SymbolTable.t) :=
  let tokens := Tokenizer.tokenize_to_file input_string in
  if Str.contains "=" input_string then
    match assignment_parts input_string with
    | Raise e => Some (Uncaught e, symbol_table)
    | Return (variable, expression) =>
        process_assignment variable expression symbol_table
    end
  else process_plain tokens symbol_table.

(** Lines processed one after the other, as [main] does, each on the
    symbol table the one before left. *)
Fixpoint process_lines (lines : list string) (symbol_table : SymbolTable.t)
  : option (list outcome * SymbolTable.t) :=
  match lines with
  | [] => Some ([], symbol_table)
  | line :: rest =>
      match process_expression line symbol_table with
      | None => None
      | Some (o, symbol_table') =>
          match process_lines rest symbol_table' with
          | None => None
          | Some (os, final) => Some (o :: os, final)
          end
      end
  end.

(** ** The grammar the parser is meant to implement

    [expression := term (('+' | '-') term)*], [term := factor (('*' | '/')
    factor)*], [factor := NUMBER | IDENTIFIER | '(' expression ')'], the
    two repetitions read as left-associative.  Written here in the usual
    left-recursive way, independently of the parser. *)

Module Grammar.

Inductive operator : Set := Add | Sub | Mul | Div.

Definition symbol (o : operator) : string :=
  match o with
  | Add => "+"
  | Sub => "-"
  | Mul => "*"
  | Div => "/"
  end.

Definition additive (o : operator) : bool :=
  match o with
  | Add | Sub => true
  | Mul | Div => false
  end.

Definition multiplicative (o : operator) : bool := negb (additive o).

(** An arithmetic expression, by its structure. *)
Inductive expr : Set :=
  | Literal (text : string)
  | Name (name : string)
  | Binary (o : operator) (lhs rhs : expr).

(** A text the [NUMBER] pattern matches as a whole. *)
Definition is_literal (text : string) : bool :=
  match Tokenizer.match_number text with
  | Some (_, EmptyString) => true
  | _ => false
  end.

Inductive level : Set := Expression | Term | Factor.

(** [derives l ts e]: the tokens [ts] are an [l] of the grammar, with the
    structure [e].  An operator's left operand is of the operator's own
    level and its right operand of the next one: that is left
    associativity; [*] and [/] sit one level below [+] and [-]: that is
    precedence. *)
Inductive derives : level -> list token -> expr -> Prop :=
  | D_number text :
      is_literal text = true ->
      derives Factor [(NUMBER, text)] (Literal text)
  | D_identifier name :
      derives Factor [(IDENTIFIER, name)] (Name name)
  | D_paren ts e :
      derives Expression ts e ->
      derives Factor ((PAREN, "(") :: ts ++ [(PAREN, ")")]) e
  | D_factor ts e :
      derives Factor ts e ->
      derives Term ts e
  | D_multiplicative o ts1 e1 ts2 e2 :
      multiplicative o = true ->
      derives Term ts1 e1 ->
      derives Factor ts2 e2 ->
      derives Term (ts1 ++ (OPERATOR, symbol o) :: ts2) (Binary o e1 e2)
  | D_term ts e :
      derives Term ts e ->
      derives Expression ts e
  | D_additive o ts1 e1 ts2 e2 :
      additive o = true ->
      derives Expression ts1 e1 ->
      derives Term ts2 e2 ->
      derives Expression (ts1 ++ (OPERATOR, symbol o) :: ts2) (Binary o e1 e2).

(** The tuple tree of an expression. *)
Fixpoint tree (e : expr) : node :=
  match e with
  | Literal text => number text
  | Name name => identifier name
  | Binary o lhs rhs => bin_op (symbol o) (tree lhs) (tree rhs)
  end.

(** No identifier occurs. *)
Fixpoint closed (e : expr) : bool :=
  match e with
  | Literal _ => true
  | Name _ => false
  | Binary _ lhs rhs => closed lhs && closed rhs
  end.

Fixpoint literals_ok (e : expr) : bool :=
  match e with
  | Literal text => is_literal text
  | Name _ => true
  | Binary _ lhs rhs => literals_ok lhs && literals_ok rhs
  end.

(** The binary64 number a literal denotes. *)
Definition literal_value (text : string) : option float :=
  match Float.of_str text with
  | Return x => Some x
  | Raise _ => None
  end.

(** The value of an expression without identifiers, in binary64
    arithmetic; none when a divisor is zero. *)
Fixpoint value (e : expr) : option float :=
  match e with
  | Literal text => literal_value text
  | Name _ => None
  | Binary o lhs rhs =>
      match value lhs, value rhs with
      | Some x, Some y =>
          match o with
          | Add => Some (PrimFloat.add x y)
          | Sub => Some (PrimFloat.sub x y)
          | Mul => Some (PrimFloat.mul x y)
          | Div => if Float.is_zero y then None else Some (PrimFloat.div x y)
          end
      | _, _ => None
      end
  end.

(** Some division of the expression has a right operand whose value is
    zero. *)
Fixpoint zero_divisor (e : expr) : bool :=
  match e with
  | Literal _ | Name _ => false
  | Binary o lhs rhs =>
      zero_divisor lhs || zero_divisor rhs
      || match o, value rhs with
         | Div, Some y => Float.is_zero y
         | _, _ => false
         end
  end.

(** The first identifier, from the left, that the table has no value
    for. *)
Fixpoint first_unbound (e : expr) (env : SymbolTable.t) : option string :=
  match e with
  | Literal _ => None
  | Name name =>
      match SymbolTable.get env name with
      | VNone => Some name
      | VFloat _ => None
      end
  | Binary _ lhs rhs =>
      match first_unbound lhs env with
      | Some name => Some name
      | None => first_unbound rhs env
      end
  end.

(** A division occurs. *)
Fixpoint divides (e : expr) : bool :=
  match e with
  | Literal _ | Name _ => false
  | Binary o lhs rhs =>
      match o with Div => true | _ => false end || divides lhs || divides rhs
  end.

(** The value of an expression on a symbol table, in binary64 arithmetic;
    none when an identifier has no value or a divisor is zero. *)
Fixpoint value_in (e : expr) (env : SymbolTable.t) : option float :=
  match e with
  | Literal text => literal_value text
  | Name name =>
      match SymbolTable.get env name with
      | VFloat x => Some x
      | VNone => None
      end
  | Binary o lhs rhs =>
      match value_in lhs env, value_in rhs env with
      | Some x, Some y =>
          match o with
          | Add => Some (PrimFloat.add x y)
          | Sub => Some (PrimFloat.sub x y)
          | Mul => Some (PrimFloat.mul x y)
          | Div => if Float.is_zero y then None else Some (PrimFloat.div x y)
          end
      | _, _ => None
      end
  end.

(** Some division of the expression has a right operand whose value on
    the table is zero. *)
Fixpoint zero_divisor_in (e : expr) (env : SymbolTable.t) : bool :=
  match e with
  | Literal _ | Name _ => false
  | Binary o lhs rhs =>
      zero_divisor_in lhs env || zero_divisor_in rhs env
      || match o, value_in rhs env with
         | Div, Some y => Float.is_zero y
         | _, _ => false
         end
  end.

(** A division by zero is evaluated before the first identifier without a
    value is reached, operands being evaluated from left to right and
    before their operator: some division with a zero divisor lies, all of
    it, to the left of that identifier.  An operator whose left operand
    holds the identifier has nothing to the left of it but what the left
    operand has; one whose left operand holds no such identifier has all
    of the left operand to the left of it, and what the right operand
    has. *)
Fixpoint division_before_unbound (e : expr) (env : SymbolTable.t) : bool :=
  match e with
  | Literal _ | Name _ => false
  | Binary _ lhs rhs =>
      match first_unbound lhs env with
      | Some _ => division_before_unbound lhs env
      | None => zero_divisor_in lhs env || division_before_unbound rhs env
      end
  end.

End Grammar.

(** An identifier in the words of the specification: a letter followed by
    zero or more letters or digits. *)
Definition is_identifier (s : string) : bool :=
  match s with
  | EmptyString => false
  | String c r =>
      Chars.is_letter c
      && forallb (fun d => Chars.is_letter d || Chars.is_digit d) (list_ascii_of_string r)
  end.

(** The tokens [ts] sit in [toks] from index [i] on. *)
Fixpoint sits (toks : list token) (i : nat) (ts : list token) : Prop :=
  match ts with
  | [] => True
  | tok :: ts' => toks !! i = Some tok /\ sits toks (S i) ts'
  end.

(** The token at index [j], if there is one, is not one of the operators
    written in [set]. *)
Definition next_is_not (set : string) (toks : list token) (j : nat) : Prop :=
  match toks !! j with
  | Some tok => Str.substring_of (snd tok) set = false
  | None => True
  end.

(** A symbol table to run examples on. *)
Definition sample_table : SymbolTable.t := {[ "x" := VFloat 1 ]}.

(** A token as the tokenizer yields them, as far as the parser and the
    evaluator look at it: the value is not empty; a value that starts with
    an operator character is that character alone, in an [OPERATOR] token;
    the value of a [NUMBER] token is a literal. *)
Definition token_ok (tok : token) : bool :=
  match snd tok with
  | EmptyString => false
  | String c r =>
      if Chars.is_operator c then
        match fst tok, r with
        | OPERATOR, EmptyString => true
        | _, _ => false
        end
      else
        match fst tok with
        | NUMBER => Grammar.is_literal (snd tok)
        | _ => true
        end
  end.

(** One of the four operators [evaluate] knows. *)
Definition is_arith (op : string) : bool :=
  String.eqb op "+" || String.eqb op "-" || String.eqb op "*" || String.eqb op "/".

(** A tree without [None], whose operators are the four and whose numbers
    are literals. *)
Fixpoint tree_ok (n : node) : bool :=
  match n with
  | number text => Grammar.is_literal text
  | identifier _ => true
  | bin_op op lhs rhs => is_arith op && tree_ok lhs && tree_ok rhs
  | None_node => false
  end.

(** The outcomes lines have: a number as result or assigned, a parsing
    error with its text, a [NameError] or [ZeroDivisionError] from the
    evaluation, and the uncaught [TypeError] of the parser. *)
Definition regular (o : outcome) : bool :=
  match o with
  | Assigned _ (VFloat _) | Result (VFloat _) => true
  | Parsing_error (Some (String _ _)) => true
  | Evaluation_error (NameError _) | Evaluation_error (ZeroDivisionError _) => true
  | Uncaught e =>
      match e with
      | TypeError msg => String.eqb msg "'NoneType' object is not subscriptable"
      | _ => false
      end
  | _ => false
  end.

(** ** Vocabulary of the proofs about the parser *)

Module ParserRuns.
Import Parser Grammar.

(** [a] finishes only where [b] finishes, with the same result. *)
Definition below (a b : call) : Prop :=
  forall self out, a self = Some out -> b self = Some out.

(** A call that finished: the tokens are the same, the cursor did not move
    back, and, when [strict], a call that returned moved it forward. *)
Definition advances (strict : bool) (self : t) (out : option (result node * t)) : Prop :=
  exists r self',
    out = Some (r, self') /\ tokens self' = tokens self /\ pos self <= pos self'
    /\ match r with
       | Return _ => strict = true -> pos self < pos self'
       | Raise _ => True
       end.

(** The call [f], given fuel enough, finishes in [self] with [out]. *)
Definition finishes (f : nat -> call) (self : t) (out : result node * t) : Prop :=
  exists n, f n self = Some out.

(** [parse_factor] reads [ts], wherever it sits, as [e]. *)
Definition parses_factor (ts : list token) (e : expr) : Prop :=
  forall toks i err,
    sits toks i ts ->
    finishes parse_factor (mk toks i err)
      (Return (tree e), mk toks (i + length ts) err).

(** The loop of [parse_term], entered before [ts] with the tree of [acc],
    is after [ts] where it would be if entered there with the tree of
    [res]. *)
Definition folds_term (ts : list token) (acc res : expr) : Prop :=
  forall toks i err out,
    sits toks i ts ->
    finishes (fun n => term_loop n (tree res)) (mk toks (i + length ts) err) out ->
    finishes (fun n => term_loop n (tree acc)) (mk toks i err) out.

Definition parses_term (ts : list token) (e : expr) : Prop :=
  exists ts0 e0 ts',
    ts = ts0 ++ ts' /\ parses_factor ts0 e0 /\ folds_term ts' e0 e.

(** The same for the loop of [parse_expression]; and [ts], when it is not
    empty, starts with a token that is not [*] or [/]. *)
Definition folds_expression (ts : list token) (acc res : expr) : Prop :=
  (forall toks i err out,
      sits toks i ts ->
      next_is_not "*/" toks (i + length ts) ->
      finishes (fun n => expression_loop n (tree res)) (mk toks (i + length ts) err) out ->
      finishes (fun n => expression_loop n (tree acc)) (mk toks i err) out)
  /\ (forall toks i,
         sits toks i ts -> next_is_not "*/" toks (i + length ts) ->
         next_is_not "*/" toks i).

Definition parses_expression (ts : list token) (e : expr) : Prop :=
  exists ts0 e0 ts',
    ts = ts0 ++ ts' /\ parses_term ts0 e0 /\ folds_expression ts' e0 e.

(** What a finished call leaves, on well-formed tokens: the tokens are
    the same and a recorded error stays; a tree returned with no error
    recorded is well formed; an exception is the [TypeError] of subscripting
    [None] or, out of a method that does not catch it, a [SyntaxError]
    with a text. *)
Definition sound (catches : bool) (self : t) (out : option (result node * t)) : Prop :=
  match out with
  | None => True
  | Some (r, self') =>
      tokens self' = tokens self
      /\ (error_is_true self = true -> error_is_true self' = true)
      /\ match r with
         | Return n => error_is_true self' = false -> tree_ok n = true
         | Raise e =>
             e = not_subscriptable
             \/ (catches = false /\ exists c msg, e = SyntaxError (String c msg))
         end
  end.

End ParserRuns.

Definition push (c : ascii) (b : string) (m : option (token * string))
  : option (token * string) :=
  match m with
  | Some (tok, rest) => Some (tok, rest +:+ String c b)
  | None => None
  end.

(** ** The loop of [main] over the lines of a file

    Option 2 of [main] reads the lines of a file and, for each line that
    is not blank once stripped, calls [process_expression] on the stripped
    line and writes [f"{expression}: {result}"] to [results.txt].  No
    [except] clause around the loop catches anything but
    [FileNotFoundError]: an exception that leaves [process_expression]
    leaves the loop, and [main], too. *)

(** What the loop wrote, line by line, and how it ended. *)
Inductive batch : Set :=
  | Finished (written : list (string * outcome))
  | Aborted (written : list (string * outcome)) (e : exception).

Definition wrote (entry : string * outcome) (b : batch) : batch :=
  match b with
  | Finished written => Finished (entry :: written)
  | Aborted written e => Aborted (entry :: written) e
  end.

Definition written_of (b : batch) : list (string * outcome) :=
  match b with
  | Finished written | Aborted written _ => written
  end.

(** [for expression in expressions: ...] *)
Fixpoint process_file (expressions : list string) (symbol_table : SymbolTable.t)
  : option (batch * SymbolTable.t) :=
  match expressions with
  | [] => Some (Finished [], symbol_table)
  | raw :: rest =>
      let expression := Str.strip raw in
      match expression with
      | EmptyString => process_file rest symbol_table
      | String _ _ =>
          match process_expression expression symbol_table with
          | None => None
          | Some (Uncaught e, symbol_table') => Some (Aborted [] e, symbol_table')
          | Some (o, symbol_table') =>
              match process_file rest symbol_table' with
              | None => None
              | Some (b, final) => Some (wrote (expression, o) b, final)
              end
          end
      end
  end.

(** The lines the loop calls [process_expression] on: every line
    stripped, the blank ones left out. *)
Definition stripped_lines (expressions : list string) : list string :=
  List.filter (fun expression => negb (String.eqb expression EmptyString))
    (map Str.strip expressions).

(** ** Vocabulary of the further properties *)

(** The identifier [name] occurs in the tree. *)
Fixpoint mentions (name : string) (n : node) : bool :=
  match n with
  | number _ | None_node => false
  | identifier x => String.eqb name x
  | bin_op _ lhs rhs => mentions name lhs || mentions name rhs
  end.

(** The tree holds a division. *)
Fixpoint mentions_division (n : node) : bool :=
  match n with
  | number _ | identifier _ | None_node => false
  | bin_op op lhs rhs => String.eqb op "/" || mentions_division lhs || mentions_division rhs
  end.

(** The token is what the token pattern matches on the token's own value,
    all of it. *)
Definition exact_token (tok : token) : Prop :=
  Tokenizer.match_token (snd tok) = Some (tok, EmptyString).

(** The values of the tokens, a space after each. *)
Fixpoint spaced (toks : list token) : string :=
  match toks with
  | [] => EmptyString
  | tok :: rest => snd tok +:+ String " " (spaced rest)
  end.

(** The values of the tokens, one after the other. *)
Fixpoint values (toks : list token) : list ascii :=
  match toks with
  | [] => []
  | tok :: rest => list_ascii_of_string (snd tok) ++ values rest
  end.

(** The tokens the driver hands to the parser for a line: those of the
    right-hand side for a line with an [=], those of the line otherwise. *)
Definition parser_input (line : string) : list token :=
  if Str.contains "=" line then Tokenizer.tokenize (expression_of line)
  else Tokenizer.tokenize_to_file line.

(** The tokens of [toks] from index [i] up to index [j] are an [l] of the
    grammar with the structure [e]. *)
Definition reads (toks : list token) (i j : nat) (l : Grammar.level) (e : Grammar.expr)
  : Prop :=
  exists ts, sits toks i ts /\ j = i + length ts /\ Grammar.derives l ts e.

(** A finished call left the tokens as they were and the cursor at most at
    the end of them. *)
Definition within (self : Parser.t) (out : option (result node * Parser.t)) : Prop :=
  match out with
  | None => True
  | Some (_, self') =>
      Parser.tokens self' = Parser.tokens self
      /\ Parser.pos self' <= length (Parser.tokens self')
  end.

(** What the parser records as an error on the tokens [toks]: that a
    parenthesis is unmatched, or that a token of [toks] is unexpected, a
    token that is no [NUMBER], no [IDENTIFIER] and no opening
    parenthesis. *)
Definition error_names (toks : list token) (msg : string) : Prop :=
  msg = "Unmatched parenthesis"
  \/ exists tok,
       In tok toks /\ fst tok <> NUMBER /\ fst tok <> IDENTIFIER /\ snd tok <> "("
       /\ msg = "Unexpected token: " +:+ Repr.tuple tok.

(** The error recorded in a parser, if any, is such a text. *)
Definition error_named (self : Parser.t) : Prop :=
  match Parser.error self with
  | None => True
  | Some msg => error_names (Parser.tokens self) msg
  end.

(** A finished call kept that, and a [SyntaxError] it raised has such a
    text. *)
Definition names_errors (self : Parser.t) (out : option (result node * Parser.t)) : Prop :=
  match out with
  | None => True
  | Some (r, self') =>
      Parser.tokens self' = Parser.tokens self
      /\ error_named self'
      /\ match r with
         | Raise (SyntaxError msg) => error_names (Parser.tokens self) msg
         | _ => True
         end
  end.

(** A tree returned with no error recorded is the tree of an [l] of the
    grammar that the tokens from the cursor before to the cursor after
    are. *)
Definition accepted (l : Grammar.level) (self : Parser.t)
    (out : option (result node * Parser.t)) : Prop :=
  forall t self',
    out = Some (Return t, self') -> Parser.error_is_true self' = false ->
    exists e, t = Grammar.tree e
              /\ reads (Parser.tokens self) (Parser.pos self) (Parser.pos self') l e.

(** The same for a loop entered with the tree of [e0], which the tokens
    from [i] to the cursor are. *)
Definition extended (l : Grammar.level) (i : nat) (self : Parser.t)
    (out : option (result node * Parser.t)) : Prop :=
  forall t self',
    out = Some (Return t, self') -> Parser.error_is_true self' = false ->
    exists e, t = Grammar.tree e /\ reads (Parser.tokens self) i (Parser.pos self') l e.

(** The first token of [suf], if there is one, is no operator. *)
Definition no_operator_next (suf : list token) : Prop :=
  match suf with
  | [] => True
  | tok :: _ =>
      Str.substring_of (snd tok) "+-" = false /\ Str.substring_of (snd tok) "*/" = false
  end.

(** * Facts *)

(** ** The string methods *)

Lemma span_append p s : fst (Str.span p s) +:+ snd (Str.span p s) = s.
Proof.
  induction s as [|c s IH]; simpl; [reflexivity|].
  destruct (p c); [|reflexivity].
  destruct (Str.span p s) as [a b]; simpl in *. now rewrite IH.
Qed.

Lemma length_append (a b : string) :
  String.length (a +:+ b) = String.length a + String.length b.
Proof. induction a as [|c a IH]; simpl; [reflexivity|]. now rewrite IH. Qed.

Lemma span_length p s :
  String.length (fst (Str.span p s)) + String.length (snd (Str.span p s))
  = String.length s.
Proof. rewrite <- length_append, span_append. reflexivity. Qed.

Lemma span_stop p a c b :
  p c = false ->
  Str.span p (a +:+ String c b)
  = (fst (Str.span p a), snd (Str.span p a) +:+ String c b).
Proof.
  intros Hc. induction a as [|x a IH]; simpl.
  - now rewrite Hc.
  - destruct (p x); [|reflexivity].
    rewrite IH. now destruct (Str.span p a).
Qed.

Lemma span_all p s c :
  Str.contains c (fst (Str.span p s)) = true -> p c = true.
Proof.
  induction s as [|d s IH]; simpl; [discriminate|].
  destruct (p d) eqn:Hd; [|discriminate].
  destruct (Str.span p s) as [a b]; simpl in *.
  intros H. apply orb_true_iff in H as [H|H]; [|auto].
  apply Ascii.eqb_eq in H. now subst.
Qed.

Lemma span_fst_all p s : Str.span p (fst (Str.span p s)) = (fst (Str.span p s), EmptyString).
Proof.
  induction s as [|c s IH]; simpl; [reflexivity|].
  destruct (p c) eqn:Hc; [|reflexivity].
  destruct (Str.span p s) as [a b]; simpl in *. now rewrite Hc, IH.
Qed.

Lemma contains_append c a b :
  Str.contains c (a +:+ b) = Str.contains c a || Str.contains c b.
Proof.
  induction a as [|d a IH]; simpl; [reflexivity|]. now rewrite IH, orb_assoc.
Qed.

Lemma contains_before sep s : Str.contains sep (Str.before sep s) = false.
Proof.
  induction s as [|c s IH]; simpl; [reflexivity|].
  destruct (Ascii.eqb c sep) eqn:E; simpl; [reflexivity|].
  now rewrite Ascii.eqb_sym, E.
Qed.

Lemma contains_lstrip c s : Str.contains c s = false -> Str.contains c (Str.lstrip s) = false.
Proof.
  induction s as [|d s IH]; simpl; [trivial|].
  destruct (Chars.is_space d); simpl; [|trivial].
  intros H. apply orb_false_elim in H as [_ H]. auto.
Qed.

Lemma contains_rstrip c s : Str.contains c s = false -> Str.contains c (Str.rstrip s) = false.
Proof.
  induction s as [|d s IH]; simpl; [trivial|].
  intros H. apply orb_false_elim in H as [Hd H]. specialize (IH H).
  destruct (Str.rstrip s) as [|e t].
  - destruct (Chars.is_space d); simpl; [reflexivity|now rewrite Hd].
  - simpl in *. now rewrite Hd, IH.
Qed.

Lemma split_before_after sep s :
  Str.split sep s
  = Str.before sep s
      :: (if Str.contains sep s then Str.split sep (Str.after sep s) else []).
Proof.
  induction s as [|c s IH]; simpl; [reflexivity|].
  rewrite (Ascii.eqb_sym sep c).
  destruct (Ascii.eqb c sep); simpl; [reflexivity|].
  rewrite IH. reflexivity.
Qed.

(** ** The tokenizer *)

(** A match is a non-empty prefix of the text: the text is the token's
    value followed by the rest. *)
Lemma match_number_split s text rest :
  Tokenizer.match_number s = Some (text, rest) ->
  s = text +:+ rest /\ text <> EmptyString.
Proof.
  unfold Tokenizer.match_number.
  pose proof (span_append Chars.is_digit s) as Hs.
  destruct (Str.span Chars.is_digit s) as [ip r]; simpl in Hs.
  destruct ip as [|d ip]; [discriminate|].
  destruct r as [|c r'].
  - intros [= <- <-]. split; [now symmetry|discriminate].
  - destruct (Ascii.eqb c "."); [|intros [= <- <-]; split; [now symmetry|discriminate]].
    pose proof (span_append Chars.is_digit r') as Hr.
    destruct (Str.span Chars.is_digit r') as [fr r'']; simpl in Hr.
    destruct fr as [|f fr]; intros [= <- <-].
    + split; [now symmetry|discriminate].
    + split; [|discriminate]. rewrite <- Hs, <- Hr. simpl.
      f_equal. clear. induction ip as [|x ip IH]; simpl; [reflexivity|now rewrite IH].
Qed.

Lemma match_token_split s tok rest :
  Tokenizer.match_token s = Some (tok, rest) ->
  s = snd tok +:+ rest /\ snd tok <> EmptyString.
Proof.
  unfold Tokenizer.match_token.
  destruct (Tokenizer.match_number s) as [[text r]|] eqn:Hn.
  - intros [= <- <-]. now apply match_number_split.
  - destruct s as [|c s]; [discriminate|].
    destruct (Chars.is_operator c); [intros [= <- <-]; split; [reflexivity|discriminate]|].
    destruct (Chars.is_paren c); [intros [= <- <-]; split; [reflexivity|discriminate]|].
    destruct (Chars.is_letter c).
    + pose proof (span_append Chars.is_word s) as Hs.
      destruct (Str.span Chars.is_word s) as [w r]; simpl in Hs.
      intros [= <- <-]. simpl. split; [now rewrite Hs|discriminate].
    + destruct (Chars.is_assign c); [|discriminate].
      intros [= <- <-]; split; [reflexivity|discriminate].
Qed.

Lemma match_token_shorter s tok rest :
  Tokenizer.match_token s = Some (tok, rest) ->
  String.length rest < String.length s.
Proof.
  intros H. apply match_token_split in H as [-> Hne].
  rewrite length_append. destruct (snd tok); [congruence|simpl; lia].
Qed.

(** The scan never needs more steps than the text has characters. *)
Lemma finditer_fuel n m s :
  String.length s <= n -> String.length s <= m ->
  Tokenizer.finditer n s = Tokenizer.finditer m s.
Proof.
  revert m s. induction n as [|n IH]; intros m s Hn Hm.
  - destruct s; [|simpl in Hn; lia]. destruct m; reflexivity.
  - destruct m as [|m]; [destruct s; [reflexivity|simpl in Hm; lia]|].
    destruct s as [|c s]; [reflexivity|].
    cbn [Tokenizer.finditer].
    destruct (Tokenizer.match_token (String c s)) as [[tok rest]|] eqn:Hm'.
    + apply match_token_shorter in Hm'. simpl in *. f_equal. apply IH; lia.
    + simpl in *. apply IH; lia.
Qed.

(** *** Characters no pattern matches *)

Lemma in_pattern_false c :
  Chars.in_pattern c = false ->
  Chars.is_digit c = false /\ Ascii.eqb c "." = false /\ Chars.is_operator c = false
  /\ Chars.is_paren c = false /\ Chars.is_word c = false /\ Chars.is_assign c = false.
Proof.
  unfold Chars.in_pattern. intros H.
  repeat (apply orb_false_elim in H as [H ?]). auto 10.
Qed.

Lemma is_word_letter c : Chars.is_word c = false -> Chars.is_letter c = false.
Proof.
  unfold Chars.is_word. intros H.
  repeat (apply orb_false_elim in H as [H ?]). assumption.
Qed.

Lemma match_number_stop a c b :
  Chars.is_digit c = false -> Ascii.eqb c "." = false ->
  Tokenizer.match_number (a +:+ String c b)
  = match Tokenizer.match_number a with
    | Some (text, rest) => Some (text, rest +:+ String c b)
    | None => None
    end.
Proof.
  intros Hd Hp. unfold Tokenizer.match_number.
  rewrite (span_stop _ _ _ _ Hd).
  destruct (Str.span Chars.is_digit a) as [ip r]; simpl.
  destruct ip as [|i ip]; [reflexivity|].
  destruct r as [|d r']; simpl; [now rewrite Hp|].
  destruct (Ascii.eqb d "."); [|reflexivity].
  rewrite (span_stop _ _ _ _ Hd).
  destruct (Str.span Chars.is_digit r') as [fr r'']; simpl.
  now destruct fr.
Qed.

Lemma match_token_stop x a c b :
  Chars.in_pattern c = false ->
  Tokenizer.match_token (String x a +:+ String c b)
  = push c b (Tokenizer.match_token (String x a)).
Proof.
  intros H. destruct (in_pattern_false c H) as (Hd & Hp & Ho & Hpa & Hw & Ha).
  unfold Tokenizer.match_token.
  rewrite (match_number_stop (String x a) c b Hd Hp).
  destruct (Tokenizer.match_number (String x a)) as [[text rest]|]; [reflexivity|].
  simpl.
  destruct (Chars.is_operator x); [reflexivity|].
  destruct (Chars.is_paren x); [reflexivity|].
  destruct (Chars.is_letter x).
  - rewrite (span_stop _ _ _ _ Hw).
    now destruct (Str.span Chars.is_word a).
  - now destruct (Chars.is_assign x).
Qed.

Lemma match_token_unknown c b :
  Chars.in_pattern c = false -> Tokenizer.match_token (String c b) = None.
Proof.
  intros H. destruct (in_pattern_false c H) as (Hd & Hp & Ho & Hpa & Hw & Ha).
  unfold Tokenizer.match_token, Tokenizer.match_number. simpl.
  now rewrite Hd, Ho, Hpa, (is_word_letter c Hw), Ha.
Qed.

Lemma finditer_skips c b n :
  Chars.in_pattern c = false ->
  forall a m,
    String.length a <= n ->
    String.length (a +:+ String c b) <= m ->
    Tokenizer.finditer m (a +:+ String c b)
    = Tokenizer.finditer n a ++ Tokenizer.tokenize b.
Proof.
  intros Hc. induction n as [|n IH]; intros a m Hn Hm.
  - destruct a; [|simpl in Hn; lia]. simpl in *.
    destruct m as [|m]; [lia|]. cbn [Tokenizer.finditer].
    rewrite (match_token_unknown c b Hc). apply finditer_fuel; [lia|reflexivity].
  - destruct a as [|x a].
    + simpl in *. destruct m as [|m]; [lia|]. cbn [Tokenizer.finditer].
      rewrite (match_token_unknown c b Hc). apply finditer_fuel; [lia|reflexivity].
    + destruct m as [|m]; [simpl in Hm; lia|].
      change (String x a +:+ String c b) with (String x (a +:+ String c b)) in *.
      cbn [Tokenizer.finditer].
      change (String x (a +:+ String c b)) with (String x a +:+ String c b).
      rewrite (match_token_stop x a c b Hc).
      destruct (Tokenizer.match_token (String x a)) as [[tok rest]|] eqn:E; simpl.
      * apply match_token_shorter in E. simpl in *. f_equal.
        apply IH; [lia|]. rewrite length_append in *. simpl in *. lia.
      * apply IH; simpl in *; lia.
Qed.

(** Whitespace is matched by no pattern. *)
Lemma whitespace_in_no_pattern c :
  Chars.is_space c = true -> Chars.in_pattern c = false.
Proof.
  destruct c as [[] [] [] [] [] [] [] []]; vm_compute; intros H;
    (reflexivity || discriminate H).
Qed.

(** *** Every [=] becomes a token *)

Lemma match_number_no_assign s text rest :
  Tokenizer.match_number s = Some (text, rest) -> Str.contains "=" text = false.
Proof.
  unfold Tokenizer.match_number.
  pose proof (span_all Chars.is_digit s "=") as Hs.
  destruct (Str.span Chars.is_digit s) as [ip r]; simpl in Hs.
  assert (Hip : Str.contains "=" ip = false).
  { destruct (Str.contains "=" ip); [now specialize (Hs eq_refl)|reflexivity]. }
  destruct ip as [|d ip]; [discriminate|].
  destruct r as [|c r']; [now intros [= <- <-]|].
  destruct (Ascii.eqb c ".") eqn:Hc; [|now intros [= <- <-]].
  pose proof (span_all Chars.is_digit r' "=") as Hr.
  destruct (Str.span Chars.is_digit r') as [fr r'']; simpl in Hr.
  destruct fr as [|f fr]; intros [= <- <-]; [exact Hip|].
  change (Str.contains "=" (String d ip +:+ String c (String f fr)) = false).
  rewrite contains_append, Hip. apply Ascii.eqb_eq in Hc as ->.
  change (Ascii.eqb "=" "." || Str.contains "=" (String f fr) = false).
  destruct (Str.contains "=" (String f fr));
    [specialize (Hr eq_refl); discriminate|reflexivity].
Qed.

Lemma match_token_assign s tok rest :
  Tokenizer.match_token s = Some (tok, rest) ->
  Str.contains "=" (snd tok) = true -> tok = (ASSIGN, "=").
Proof.
  unfold Tokenizer.match_token.
  destruct (Tokenizer.match_number s) as [[text r]|] eqn:Hn.
  - intros [= <- <-] H. simpl in H.
    now rewrite (match_number_no_assign _ _ _ Hn) in H.
  - destruct s as [|c s]; [discriminate|].
    assert (Hone : forall k : token_type, Str.contains "=" (snd (k, String c EmptyString)) = true ->
                             c = "="%char).
    { intros k. simpl. rewrite orb_false_r. intros H. now apply Ascii.eqb_eq in H. }
    destruct (Chars.is_operator c) eqn:Ho.
    { intros [= <- <-] H. apply Hone in H. now subst. }
    destruct (Chars.is_paren c) eqn:Hp.
    { intros [= <- <-] H. apply Hone in H. now subst. }
    destruct (Chars.is_letter c) eqn:Hl.
    { pose proof (span_all Chars.is_word s "=") as Hs.
      destruct (Str.span Chars.is_word s) as [w r]; simpl in Hs.
      intros [= <- <-] H. simpl in H. apply orb_true_iff in H as [H|H].
      - apply Ascii.eqb_eq in H. now subst.
      - now specialize (Hs H). }
    destruct (Chars.is_assign c); [|discriminate].
    intros [= <- <-] H. apply Hone in H. now subst.
Qed.

(** Every [=] of the text becomes an [ASSIGN] token. *)
Lemma finditer_assign n s :
  String.length s <= n -> Str.contains "=" s = true ->
  In (ASSIGN, "=") (Tokenizer.finditer n s).
Proof.
  revert s. induction n as [|n IH]; intros s Hn Hc.
  - destruct s; [discriminate|simpl in Hn; lia].
  - destruct s as [|c s]; [discriminate|]. cbn [Tokenizer.finditer].
    destruct (Tokenizer.match_token (String c s)) as [[tok rest]|] eqn:Hm.
    + pose proof (match_token_shorter _ _ _ Hm) as Hlen.
      pose proof (match_token_split _ _ _ Hm) as [Hsplit _].
      rewrite Hsplit, contains_append in Hc. apply orb_true_iff in Hc as [Hc|Hc].
      * left. eapply match_token_assign; eassumption.
      * right. apply IH; [simpl in *; lia|exact Hc].
    + simpl in Hc. apply orb_true_iff in Hc as [Hc|Hc].
      * apply Ascii.eqb_eq in Hc. subst c. discriminate Hm.
      * apply IH; [simpl in Hn; lia|exact Hc].
Qed.

(** *** The texts of [NUMBER] tokens *)

Lemma match_number_literal s text rest :
  Tokenizer.match_number s = Some (text, rest) -> Grammar.is_literal text = true.
Proof.
  unfold Grammar.is_literal, Tokenizer.match_number at 1.
  pose proof (span_fst_all Chars.is_digit s) as Hip.
  destruct (Str.span Chars.is_digit s) as [ip r]; simpl in Hip.
  destruct ip as [|i ip]; [discriminate|].
  assert (Hwhole : Tokenizer.match_number (String i ip) = Some (String i ip, EmptyString)).
  { unfold Tokenizer.match_number. now rewrite Hip. }
  destruct r as [|c r']; [intros [= <- <-]; now rewrite Hwhole|].
  destruct (Ascii.eqb c ".") eqn:Hc; [|intros [= <- <-]; now rewrite Hwhole].
  pose proof (span_fst_all Chars.is_digit r') as Hfr.
  destruct (Str.span Chars.is_digit r') as [fr r'']; simpl in Hfr.
  destruct fr as [|f fr]; intros [= <- <-]; [now rewrite Hwhole|].
  apply Ascii.eqb_eq in Hc as ->.
  unfold Tokenizer.match_number.
  assert (Hd : Chars.is_digit "." = false) by reflexivity.
  change (String i (ip +:+ String "." (String f fr)))
    with (String i ip +:+ String "." (String f fr)).
  rewrite (span_stop Chars.is_digit (String i ip) "." (String f fr) Hd), Hip.
  cbn [fst snd String.append]. change (Ascii.eqb "." ".") with true. cbn iota.
  now rewrite Hfr.
Qed.

Lemma match_token_number s text rest :
  Tokenizer.match_token s = Some ((NUMBER, text), rest) ->
  Tokenizer.match_number s = Some (text, rest).
Proof.
  unfold Tokenizer.match_token.
  destruct (Tokenizer.match_number s) as [[t r]|]; [now intros [= <- <-]|].
  destruct s as [|c s]; [discriminate|].
  destruct (Chars.is_operator c); [discriminate|].
  destruct (Chars.is_paren c); [discriminate|].
  destruct (Chars.is_letter c); [now destruct (Str.span Chars.is_word s)|].
  now destruct (Chars.is_assign c).
Qed.

Lemma of_str_literal text :
  Grammar.is_literal text = true -> exists x, Float.of_str text = Return x.
Proof.
  unfold Grammar.is_literal, Float.of_str.
  destruct (Tokenizer.match_number text) as [[t [|c r]]|]; try discriminate.
  intros _. destruct (Str.span Chars.is_digit text) as [ip [|c r]]; eauto.
Qed.

(** Every [NUMBER] token of the tokenizer holds digits with an optional
    fraction, a text [float] converts. *)
Lemma tokenize_numbers_literal line text :
  In (NUMBER, text) (Tokenizer.tokenize line) ->
  exists x, Float.of_str text = Return x.
Proof.
  unfold Tokenizer.tokenize. generalize (String.length line) as n.
  intros n. revert line. induction n as [|n IH]; intros line; [contradiction|].
  destruct line as [|c line]; [contradiction|]. cbn [Tokenizer.finditer].
  destruct (Tokenizer.match_token (String c line)) as [[tok rest]|] eqn:Hm.
  - intros [->|H]; [|eauto].
    apply match_token_number, match_number_literal in Hm. now apply of_str_literal.
  - apply IH.
Qed.

(** ** The parser: fuel and termination *)

Module ParserFacts.
Import Parser ParserRuns.

Lemma below_bind m1 m2 k1 k2 :
  below m1 m2 -> (forall n, below (k1 n) (k2 n)) -> below (bind m1 k1) (bind m2 k2).
Proof.
  intros Hm Hk self out. unfold bind.
  destruct (m1 self) as [[r self']|] eqn:E; [|discriminate].
  rewrite (Hm _ _ E). destruct r; [apply Hk|trivial].
Qed.

Lemma below_catch m1 m2 :
  below m1 m2 -> below (catch_syntax_error m1) (catch_syntax_error m2).
Proof.
  intros Hm self out. unfold catch_syntax_error.
  destruct (m1 self) as [[r self']|] eqn:E; [|discriminate].
  now rewrite (Hm _ _ E).
Qed.

(** More fuel never changes a result. *)
Lemma fuel_step n :
  below (parse_expression n) (parse_expression (S n))
  /\ (forall t, below (expression_loop n t) (expression_loop (S n) t))
  /\ below (parse_term n) (parse_term (S n))
  /\ (forall t, below (term_loop n t) (term_loop (S n) t))
  /\ below (parse_factor n) (parse_factor (S n)).
Proof.
  induction n as [|n (IHe & IHel & IHt & IHtl & IHf)].
  - repeat split; intros; intros self out; discriminate.
  - assert (He : below (parse_expression (S n)) (parse_expression (S (S n)))).
    { change (below (catch_syntax_error (bind (parse_term n) (expression_loop n)))
                    (catch_syntax_error (bind (parse_term (S n)) (expression_loop (S n))))).
      apply below_catch, below_bind; assumption. }
    assert (Ht : below (parse_term (S n)) (parse_term (S (S n)))).
    { change (below (bind (parse_factor n) (term_loop n))
                    (bind (parse_factor (S n)) (term_loop (S n)))).
      apply below_bind; assumption. }
    repeat split; try assumption.
    + intros t self out.
      cbn [expression_loop]. destruct (peek self) as [tok|]; [|trivial].
      destruct (Str.substring_of (snd tok) "+-"); [|trivial].
      apply below_bind; [assumption|]. intros r. apply IHel.
    + intros t self out.
      cbn [term_loop]. destruct (peek self) as [tok|]; [|trivial].
      destruct (Str.substring_of (snd tok) "*/"); [|trivial].
      apply below_bind; [assumption|]. intros r. apply IHtl.
    + intros self out.
      cbn [parse_factor]. destruct (peek self) as [tok|]; [|trivial].
      destruct (fst tok); trivial;
        (destruct (String.eqb (snd tok) "("); [|trivial];
         apply below_bind; [assumption|]; intros r self'; trivial).
Qed.

Lemma fuel_mono n m :
  n <= m ->
  below (parse_expression n) (parse_expression m)
  /\ (forall t, below (expression_loop n t) (expression_loop m t))
  /\ below (parse_term n) (parse_term m)
  /\ (forall t, below (term_loop n t) (term_loop m t))
  /\ below (parse_factor n) (parse_factor m).
Proof.
  induction 1 as [|m _ (IHe & IHel & IHt & IHtl & IHf)].
  - repeat split; intros; intros self out; trivial.
  - destruct (fuel_step m) as (He & Hel & Ht & Htl & Hf).
    repeat split; intros; intros self out H; auto.
    + apply Hel, IHel, H.
    + apply Htl, IHtl, H.
Qed.

(** *** Termination *)

Lemma ahead_peek_none self : ahead self = 0 -> peek self = None.
Proof.
  unfold ahead, peek. intros H. apply lookup_ge_None. lia.
Qed.

Lemma peek_ahead self tok : peek self = Some tok -> S (ahead (consume self)) = ahead self.
Proof.
  unfold ahead, peek. intros H. apply lookup_lt_Some in H. simpl. lia.
Qed.

Lemma advances_weaken strict self out : advances strict self out -> advances false self out.
Proof.
  intros (r & self' & -> & Ht & Hp & Hr). exists r, self'. repeat split; trivial.
  destruct r; [discriminate|trivial].
Qed.

Lemma advances_bind s1 s2 (m : call) (k : node -> call) self0 self :
  tokens self = tokens self0 -> pos self0 <= pos self ->
  (s2 = true -> s1 = true \/ pos self0 < pos self) ->
  advances s1 self (m self) ->
  (forall n self', tokens self' = tokens self -> pos self <= pos self' ->
                   (s1 = true -> pos self < pos self') ->
                   exists s, advances s self' (k n self')) ->
  advances s2 self0 (bind m k self).
Proof.
  intros Ht0 Hp0 Hs (r & self1 & E & Ht & Hp & Hr) Hk. unfold bind. rewrite E.
  destruct r as [n|e].
  - destruct (Hk n self1 Ht Hp Hr) as (s & r' & self2 & E' & Ht' & Hp' & Hr').
    exists r', self2. rewrite E'. repeat split; [congruence|lia|].
    destruct r'; [|trivial]. intros H. destruct (Hs H) as [->|]; [specialize (Hr eq_refl)|]; lia.
  - exists (Raise e), self1. repeat split; [congruence|lia].
Qed.

Lemma advances_catch self (m : call) :
  advances false self (m self) -> advances false self (catch_syntax_error m self).
Proof.
  intros (r & self' & E & Ht & Hp & Hr). unfold catch_syntax_error. rewrite E.
  destruct r as [n|e].
  - exists (Return n), self'. repeat split; trivial; discriminate.
  - destruct e;
      try (eexists (Raise _), self'; repeat split; trivial; discriminate).
    exists (Return None_node), (set_error self' msg).
    repeat split; trivial; discriminate.
Qed.

Lemma terminates k :
  (forall self n, ahead self <= k -> 3 * k + 1 <= n -> advances true self (parse_factor n self))
  /\ (forall self t n, ahead self <= k -> 3 * k + 1 <= n -> advances false self (term_loop n t self))
  /\ (forall self n, ahead self <= k -> 3 * k + 2 <= n -> advances true self (parse_term n self))
  /\ (forall self t n, ahead self <= k -> 3 * k + 2 <= n ->
        advances false self (expression_loop n t self))
  /\ (forall self n, ahead self <= k -> 3 * k + 3 <= n ->
        advances false self (parse_expression n self)).
Proof.
  induction k as [k IH] using lt_wf_ind.
  assert (HF : forall self n, ahead self <= k -> 3 * k + 1 <= n ->
                 advances true self (parse_factor n self)).
  { intros self [|n] Hk Hn; [lia|]. cbn [parse_factor].
    destruct (peek self) as [tok|] eqn:Hpeek.
    2:{ exists (Raise not_subscriptable), self. repeat split; lia. }
    apply peek_ahead in Hpeek.
    assert (Hret : forall t, advances true self (Some (Return t, consume self))).
    { intros t. exists (Return t), (consume self). repeat split; simpl; lia. }
    assert (Hparen : advances true self
      (if String.eqb (snd tok) "(" then
         bind (parse_expression n)
           (fun expr self' =>
              match peek self' with
              | Some tok' =>
                  if String.eqb (snd tok') ")" then Some (Return expr, consume self')
                  else Some (Raise (SyntaxError "Unmatched parenthesis"), self')
              | None => Some (Raise (SyntaxError "Unmatched parenthesis"), self')
              end) (consume self)
       else Some (Raise (SyntaxError ("Unexpected token: " +:+ Repr.tuple tok)), self))).
    { destruct (String.eqb (snd tok) "(").
      2:{ eexists _, self. repeat split; lia. }
      apply advances_bind with (s1 := false); simpl; [reflexivity|lia|right; lia| |].
      - destruct (IH (ahead (consume self))) as (_ & _ & _ & _ & HE); [lia|].
        apply HE; lia.
      - intros t self' Ht Hp _. exists false.
        destruct (peek self') as [tok'|]; [destruct (String.eqb (snd tok') ")")|];
          eexists _, _; repeat split; simpl; try lia; discriminate. }
    destruct (fst tok); auto. }
  assert (HTL : forall self t n, ahead self <= k -> 3 * k + 1 <= n ->
                  advances false self (term_loop n t self)).
  { intros self t [|n] Hk Hn; [lia|]. cbn [term_loop].
    destruct (peek self) as [tok|] eqn:Hpeek.
    2:{ exists (Return t), self. repeat split; [lia|discriminate]. }
    apply peek_ahead in Hpeek.
    destruct (Str.substring_of (snd tok) "*/").
    2:{ exists (Return t), self. repeat split; [lia|discriminate]. }
    destruct (IH (ahead (consume self))) as (HF' & HTL' & _); [lia|].
    apply advances_bind with (s1 := true); simpl; [reflexivity|lia|discriminate| |].
    - apply HF'; lia.
    - intros r self' Ht Hp _. exists false.
      apply HTL'; [|lia]. unfold ahead in *. rewrite Ht. simpl in *. lia. }
  assert (HT : forall self n, ahead self <= k -> 3 * k + 2 <= n ->
                 advances true self (parse_term n self)).
  { intros self [|n] Hk Hn; [lia|]. cbn [parse_term].
    apply advances_bind with (s1 := true); [reflexivity|lia|auto| |].
    - apply HF; lia.
    - intros r self' Ht Hp _. exists false.
      apply HTL; [|lia]. unfold ahead in *. rewrite Ht. lia. }
  assert (HEL : forall self t n, ahead self <= k -> 3 * k + 2 <= n ->
                  advances false self (expression_loop n t self)).
  { intros self t [|n] Hk Hn; [lia|]. cbn [expression_loop].
    destruct (peek self) as [tok|] eqn:Hpeek.
    2:{ exists (Return t), self. repeat split; [lia|discriminate]. }
    apply peek_ahead in Hpeek.
    destruct (Str.substring_of (snd tok) "+-").
    2:{ exists (Return t), self. repeat split; [lia|discriminate]. }
    destruct (IH (ahead (consume self))) as (_ & _ & HT' & HEL' & _); [lia|].
    apply advances_bind with (s1 := true); simpl; [reflexivity|lia|discriminate| |].
    - apply HT'; lia.
    - intros r self' Ht Hp _. exists false.
      apply HEL'; [|lia]. unfold ahead in *. rewrite Ht. simpl in *. lia. }
  repeat split; try assumption.
  intros self [|n] Hk Hn; [lia|]. cbn [parse_expression].
  apply advances_catch.
  apply advances_bind with (s1 := true); [reflexivity|lia|discriminate| |].
  - apply HT; lia.
  - intros r self' Ht Hp _. exists false.
    apply HEL; [|lia]. unfold ahead in *. rewrite Ht. lia.
Qed.

(** [parse_expression] finishes on every token list. *)
Lemma run_parse_expression_advances self :
  advances false self (run_parse_expression self).
Proof.
  unfold run_parse_expression, enough.
  destruct (terminates (ahead self)) as (_ & _ & _ & _ & HE). apply HE; lia.
Qed.

End ParserFacts.

(** ** The parser implements the grammar *)

Module Completeness.
Import Parser ParserRuns ParserFacts Grammar.

Lemma finishes_run self out :
  finishes parse_expression self out -> run_parse_expression self = Some out.
Proof.
  intros [n Hn]. unfold run_parse_expression.
  destruct (terminates (ahead self)) as (_ & _ & _ & _ & HE).
  destruct (HE self (enough (ahead self))) as (r & self' & E & _); [lia|unfold enough; lia|].
  rewrite E. f_equal.
  destruct (fuel_mono n (Nat.max n (enough (ahead self)))) as (H1 & _); [lia|].
  destruct (fuel_mono (enough (ahead self)) (Nat.max n (enough (ahead self))))
    as (H2 & _); [lia|].
  apply H1 in Hn. apply H2 in E. congruence.
Qed.

(** *** One step of each method, fuel put aside *)

Lemma factor_number self tok :
  peek self = Some tok -> fst tok = NUMBER ->
  finishes parse_factor self (Return (number (snd tok)), consume self).
Proof. intros Hp Hk. exists 1. cbn [parse_factor]. now rewrite Hp, Hk. Qed.

Lemma factor_identifier self tok :
  peek self = Some tok -> fst tok = IDENTIFIER ->
  finishes parse_factor self (Return (identifier (snd tok)), consume self).
Proof. intros Hp Hk. exists 1. cbn [parse_factor]. now rewrite Hp, Hk. Qed.

Lemma factor_paren self self' x tok' :
  peek self = Some (PAREN, "(") ->
  finishes parse_expression (consume self) (Return x, self') ->
  peek self' = Some tok' -> snd tok' = ")" ->
  finishes parse_factor self (Return x, consume self').
Proof.
  intros Hp [n Hn] Hp' Hc. exists (S n). cbn [parse_factor]. rewrite Hp. simpl.
  unfold bind. rewrite Hn, Hp', Hc. reflexivity.
Qed.

Lemma term_of_factor self self' x out :
  finishes parse_factor self (Return x, self') ->
  finishes (fun n => term_loop n x) self' out ->
  finishes parse_term self out.
Proof.
  intros [n Hn] [m Hm]. exists (S (Nat.max n m)). cbn [parse_term]. unfold bind.
  destruct (fuel_mono n (Nat.max n m)) as (_ & _ & _ & _ & Hf); [lia|].
  destruct (fuel_mono m (Nat.max n m)) as (_ & _ & _ & Hl & _); [lia|].
  rewrite (Hf _ _ Hn). apply Hl, Hm.
Qed.

Lemma expression_of_term self self' self'' x y :
  finishes parse_term self (Return x, self') ->
  finishes (fun n => expression_loop n x) self' (Return y, self'') ->
  finishes parse_expression self (Return y, self'').
Proof.
  intros [n Hn] [m Hm]. exists (S (Nat.max n m)). cbn [parse_expression].
  unfold catch_syntax_error, bind.
  destruct (fuel_mono n (Nat.max n m)) as (_ & _ & Ht & _); [lia|].
  destruct (fuel_mono m (Nat.max n m)) as (_ & Hl & _); [lia|].
  rewrite (Ht _ _ Hn), (Hl _ _ _ Hm). reflexivity.
Qed.

Lemma term_loop_stops self x :
  match peek self with
  | Some tok => Str.substring_of (snd tok) "*/" = false
  | None => True
  end ->
  finishes (fun n => term_loop n x) self (Return x, self).
Proof.
  intros H. exists 1. cbn [term_loop]. destruct (peek self); [now rewrite H|reflexivity].
Qed.

Lemma expression_loop_stops self x :
  match peek self with
  | Some tok => Str.substring_of (snd tok) "+-" = false
  | None => True
  end ->
  finishes (fun n => expression_loop n x) self (Return x, self).
Proof.
  intros H. exists 1. cbn [expression_loop].
  destruct (peek self); [now rewrite H|reflexivity].
Qed.

Lemma term_loop_round self self' tok x r out :
  peek self = Some tok -> Str.substring_of (snd tok) "*/" = true ->
  finishes parse_factor (consume self) (Return r, self') ->
  finishes (fun n => term_loop n (bin_op (snd tok) x r)) self' out ->
  finishes (fun n => term_loop n x) self out.
Proof.
  intros Hp Ho [n Hn] [m Hm]. exists (S (Nat.max n m)). cbn [term_loop].
  rewrite Hp, Ho. unfold bind.
  destruct (fuel_mono n (Nat.max n m)) as (_ & _ & _ & _ & Hf); [lia|].
  destruct (fuel_mono m (Nat.max n m)) as (_ & _ & _ & Hl & _); [lia|].
  rewrite (Hf _ _ Hn). apply Hl, Hm.
Qed.

Lemma expression_loop_round self self' tok x r out :
  peek self = Some tok -> Str.substring_of (snd tok) "+-" = true ->
  finishes parse_term (consume self) (Return r, self') ->
  finishes (fun n => expression_loop n (bin_op (snd tok) x r)) self' out ->
  finishes (fun n => expression_loop n x) self out.
Proof.
  intros Hp Ho [n Hn] [m Hm]. exists (S (Nat.max n m)). cbn [expression_loop].
  rewrite Hp, Ho. unfold bind.
  destruct (fuel_mono n (Nat.max n m)) as (_ & _ & Ht & _); [lia|].
  destruct (fuel_mono m (Nat.max n m)) as (_ & Hl & _); [lia|].
  rewrite (Ht _ _ Hn). apply Hl, Hm.
Qed.

(** *** Where tokens sit *)

Lemma sits_app toks i a b :
  sits toks i (a ++ b) <-> sits toks i a /\ sits toks (i + length a) b.
Proof.
  revert i. induction a as [|x a IH]; intros i; simpl.
  - rewrite Nat.add_0_r. tauto.
  - rewrite IH. replace (S i + length a) with (i + S (length a)) by lia. tauto.
Qed.

Lemma sits_whole toks pre : sits (pre ++ toks) (length pre) toks.
Proof.
  revert pre. induction toks as [|x toks IH]; intros pre; simpl; [trivial|].
  split.
  - now apply list_lookup_middle.
  - replace (pre ++ x :: toks) with ((pre ++ [x]) ++ toks) by now rewrite <- app_assoc.
    replace (S (length pre)) with (length (pre ++ [x])) by (rewrite length_app; simpl; lia).
    apply IH.
Qed.

(** *** The parser on the tokens of a derivation *)

Lemma parses_term_runs ts e :
  parses_term ts e ->
  forall toks i err,
    sits toks i ts -> next_is_not "*/" toks (i + length ts) ->
    finishes parse_term (mk toks i err) (Return (tree e), mk toks (i + length ts) err).
Proof.
  intros (ts0 & e0 & ts' & -> & Hf & Hl) toks i err Hs Hn.
  apply sits_app in Hs as [Hs0 Hs']. rewrite length_app, Nat.add_assoc in *.
  eapply term_of_factor; [apply Hf, Hs0|].
  apply Hl; [exact Hs'|]. apply term_loop_stops. exact Hn.
Qed.

Lemma parses_expression_runs ts e :
  parses_expression ts e ->
  forall toks i err,
    sits toks i ts ->
    next_is_not "*/" toks (i + length ts) -> next_is_not "+-" toks (i + length ts) ->
    finishes parse_expression (mk toks i err)
      (Return (tree e), mk toks (i + length ts) err).
Proof.
  intros (ts0 & e0 & ts' & -> & Ht & Hl & Hh) toks i err Hs Hm Ha.
  apply sits_app in Hs as [Hs0 Hs']. rewrite length_app, Nat.add_assoc in *.
  eapply expression_of_term.
  - apply parses_term_runs; [exact Ht|exact Hs0|]. apply Hh; assumption.
  - apply Hl; [exact Hs'|exact Hm|]. apply expression_loop_stops. exact Ha.
Qed.

Lemma folds_term_nil e : folds_term [] e e.
Proof. intros toks i err out _. simpl. now rewrite Nat.add_0_r. Qed.

Lemma folds_expression_nil e : folds_expression [] e e.
Proof.
  split.
  - intros toks i err out _ _. simpl. now rewrite Nat.add_0_r.
  - intros toks i _. simpl. now rewrite Nat.add_0_r.
Qed.

Lemma multiplicative_symbol o :
  multiplicative o = true -> Str.substring_of (symbol o) "*/" = true.
Proof. destruct o; (discriminate || reflexivity). Qed.

Lemma additive_symbol o :
  additive o = true ->
  Str.substring_of (symbol o) "+-" = true /\ Str.substring_of (symbol o) "*/" = false.
Proof. destruct o; (discriminate || (split; reflexivity)). Qed.

Lemma folds_term_snoc ts acc res o ts2 e2 :
  multiplicative o = true ->
  folds_term ts acc res -> parses_factor ts2 e2 ->
  folds_term (ts ++ (OPERATOR, symbol o) :: ts2) acc (Binary o res e2).
Proof.
  intros Ho Hl Hf toks i err out Hs Hout.
  apply sits_app in Hs as [Hs1 [Hop Hs2]].
  rewrite length_app in Hout. simpl in Hout.
  apply Hl; [exact Hs1|].
  eapply term_loop_round with (tok := (OPERATOR, symbol o)).
  - exact Hop.
  - now apply multiplicative_symbol.
  - apply Hf. exact Hs2.
  - simpl.
    replace (i + (length ts + S (length ts2))) with (S (i + length ts + length ts2))
      in Hout by lia.
    exact Hout.
Qed.

Lemma folds_expression_snoc ts acc res o ts2 e2 :
  additive o = true ->
  folds_expression ts acc res -> parses_term ts2 e2 ->
  folds_expression (ts ++ (OPERATOR, symbol o) :: ts2) acc (Binary o res e2).
Proof.
  intros Ho [Hl Hh] Ht. destruct (additive_symbol o Ho) as [Hplus Hstar].
  assert (Hnext : forall toks i,
             sits toks i (ts ++ (OPERATOR, symbol o) :: ts2) ->
             next_is_not "*/" toks (i + length ts)).
  { intros toks i Hs. apply sits_app in Hs as [_ [Hop _]].
    unfold next_is_not. now rewrite Hop. }
  split.
  - intros toks i err out Hs Hn Hout.
    pose proof (Hnext _ _ Hs) as Hn1.
    apply sits_app in Hs as [Hs1 [Hop Hs2]].
    rewrite length_app in Hout, Hn. simpl in Hout, Hn.
    replace (i + (length ts + S (length ts2))) with (S (i + length ts) + length ts2)
      in Hout, Hn by lia.
    apply Hl; [exact Hs1|exact Hn1|].
    eapply expression_loop_round with (tok := (OPERATOR, symbol o)).
    + exact Hop.
    + exact Hplus.
    + apply parses_term_runs; [exact Ht|exact Hs2|exact Hn].
    + exact Hout.
  - intros toks i Hs _. pose proof (Hnext _ _ Hs) as Hn1.
    apply sits_app in Hs as [Hs1 _]. now apply Hh.
Qed.

(** The parser reads every derivation of the grammar as its structure. *)
Lemma derives_parses l ts e :
  derives l ts e ->
  match l with
  | Factor => parses_factor ts e
  | Term => parses_term ts e
  | Expression => parses_expression ts e
  end.
Proof.
  induction 1 as [text Hlit|name|ts e _ IH|ts e _ IH|o ts1 e1 ts2 e2 Ho _ IH1 _ IH2
                  |ts e _ IH|o ts1 e1 ts2 e2 Ho _ IH1 _ IH2].
  - intros toks i err [Hp _]. simpl. rewrite Nat.add_1_r.
    apply (factor_number (mk toks i err) (NUMBER, text)); [exact Hp|reflexivity].
  - intros toks i err [Hp _]. simpl. rewrite Nat.add_1_r.
    apply (factor_identifier (mk toks i err) (IDENTIFIER, name)); [exact Hp|reflexivity].
  - intros toks i err [Hp Hs]. apply sits_app in Hs as [Hs [Hclose _]].
    simpl. rewrite length_app. simpl.
    replace (i + S (length ts + 1)) with (S (S i + length ts)) by lia.
    apply (factor_paren (mk toks i err) (mk toks (S i + length ts) err) (tree e)
             (PAREN, ")")); [exact Hp| |exact Hclose|reflexivity].
    apply (parses_expression_runs ts e IH toks (S i) err Hs);
      unfold next_is_not; now rewrite Hclose.
  - exists ts, e, []. rewrite app_nil_r. repeat split; [exact IH|apply folds_term_nil].
  - destruct IH1 as (ts0 & e0 & ts' & -> & Hf & Hl).
    exists ts0, e0, (ts' ++ (OPERATOR, symbol o) :: ts2).
    rewrite <- app_assoc. repeat split; [exact Hf|].
    now apply folds_term_snoc.
  - exists ts, e, []. rewrite app_nil_r.
    split; [reflexivity|]. split; [exact IH|apply folds_expression_nil].
  - destruct IH1 as (ts0 & e0 & ts' & -> & Ht & Hl).
    exists ts0, e0, (ts' ++ (OPERATOR, symbol o) :: ts2).
    rewrite <- app_assoc. split; [reflexivity|]. split; [exact Ht|].
    now apply folds_expression_snoc.
Qed.

(** On the tokens of an expression of the grammar, [parse_expression]
    returns the tree of its structure, having read every token and
    recorded no error. *)
Lemma parse_expression_complete ts e :
  derives Expression ts e ->
  run_parse_expression (init ts) = Some (Return (tree e), mk ts (length ts) None).
Proof.
  intros H. apply finishes_run.
  apply (parses_expression_runs ts e (derives_parses _ _ _ H) ts 0 None).
  - apply (sits_whole ts []).
  - unfold next_is_not. simpl. now rewrite lookup_ge_None_2.
  - unfold next_is_not. simpl. now rewrite lookup_ge_None_2.
Qed.

End Completeness.

(** ** What the parser returns on the tokenizer's tokens *)

Module Invariants.
Import Parser ParserRuns.

Lemma match_token_ok s tok rest :
  Tokenizer.match_token s = Some (tok, rest) -> token_ok tok = true.
Proof.
  unfold Tokenizer.match_token.
  destruct (Tokenizer.match_number s) as [[text r]|] eqn:Hn.
  - intros [= <- <-]. pose proof (match_number_literal _ _ _ Hn) as Hlit.
    unfold token_ok. cbn [fst snd].
    unfold Tokenizer.match_number in Hn.
    pose proof (span_all Chars.is_digit s) as Hall.
    destruct (Str.span Chars.is_digit s) as [ip r0]; cbn [fst] in Hall.
    destruct ip as [|d ip]; [discriminate|].
    assert (Hd : Chars.is_digit d = true).
    { apply Hall. cbn [Str.contains]. now rewrite (proj2 (Ascii.eqb_eq d d) eq_refl). }
    assert (Hop : Chars.is_operator d = false).
    { clear - Hd. destruct d as [[] [] [] [] [] [] [] []]; vm_compute in Hd |- *;
        (reflexivity || discriminate Hd). }
    assert (Hhead : exists t, text = String d t).
    { destruct r0 as [|c r']; [injection Hn as <- <-; eauto|].
      destruct (Ascii.eqb c "."); [|injection Hn as <- <-; eauto].
      destruct (Str.span Chars.is_digit r') as [[|f fr] r''];
        injection Hn as <- <-; eauto. }
    destruct Hhead as [t ->]. now rewrite Hop.
  - destruct s as [|c s]; [discriminate|]. unfold token_ok.
    destruct (Chars.is_operator c) eqn:Ho.
    { intros [= <- <-]. cbn [fst snd]. now rewrite Ho. }
    destruct (Chars.is_paren c).
    { intros [= <- <-]. cbn [fst snd]. now rewrite Ho. }
    destruct (Chars.is_letter c).
    { destruct (Str.span Chars.is_word s) as [w r].
      intros [= <- <-]. cbn [fst snd]. now rewrite Ho. }
    destruct (Chars.is_assign c); [|discriminate].
    intros [= <- <-]. cbn [fst snd]. now rewrite Ho.
Qed.

(** Every token of the tokenizer is well formed. *)
Lemma tokenize_ok line : Forall (fun tok => token_ok tok = true) (Tokenizer.tokenize line).
Proof.
  unfold Tokenizer.tokenize. generalize (String.length line) as n.
  intros n. revert line. induction n as [|n IH]; intros line; [constructor|].
  destruct line as [|c line]; [constructor|]. cbn [Tokenizer.finditer].
  destruct (Tokenizer.match_token (String c line)) as [[tok rest]|] eqn:Hm; [|apply IH].
  constructor; [eapply match_token_ok; eassumption|apply IH].
Qed.

Lemma operator_char c : Chars.is_operator c = true -> is_arith (String c EmptyString) = true.
Proof.
  destruct c as [[] [] [] [] [] [] [] []]; vm_compute; intros H;
    (reflexivity || discriminate H).
Qed.

(** A well-formed token that either loop takes for an operator holds one
    of the four. *)
Lemma operator_token tok :
  token_ok tok = true ->
  Str.substring_of (snd tok) "+-" = true \/ Str.substring_of (snd tok) "*/" = true ->
  is_arith (snd tok) = true.
Proof.
  unfold token_ok. destruct (snd tok) as [|c r]; [discriminate|].
  destruct (Chars.is_operator c) eqn:Ho.
  - destruct (fst tok), r; try discriminate. intros _ _. now apply operator_char.
  - intros _ H. exfalso.
    assert (Hc : forall d, Chars.is_operator d = true -> c <> d) by (intros d Hd ->; congruence).
    cbn [Str.substring_of String.prefix] in H.
    destruct H as [H|H].
    + destruct (ascii_dec c "+") as [->|_]; [discriminate Ho|].
      destruct (ascii_dec c "-") as [->|_]; [discriminate Ho|]. discriminate H.
    + destruct (ascii_dec c "*") as [->|_]; [discriminate Ho|].
      destruct (ascii_dec c "/") as [->|_]; [discriminate Ho|]. discriminate H.
Qed.

Lemma error_is_true_consume self : error_is_true (consume self) = error_is_true self.
Proof. reflexivity. Qed.

Lemma sound_bind c1 (m : call) (k : node -> call) self0 self :
  tokens self = tokens self0 ->
  (error_is_true self0 = true -> error_is_true self = true) ->
  sound c1 self (m self) ->
  (forall n self',
      tokens self' = tokens self ->
      (error_is_true self = true -> error_is_true self' = true) ->
      (error_is_true self' = false -> tree_ok n = true) ->
      sound false self' (k n self')) ->
  sound false self0 (bind m k self).
Proof.
  intros Ht0 He0 Hm Hk. unfold bind.
  destruct (m self) as [[r self1]|]; [|exact I].
  destruct Hm as (Ht & He & Hr).
  destruct r as [n|e].
  - specialize (Hk n self1 Ht He Hr).
    destruct (k n self1) as [[r' self2]|]; [|exact I].
    destruct Hk as (Ht' & He' & Hr'). repeat split; [congruence|auto|exact Hr'].
  - repeat split; [congruence|auto|].
    destruct Hr as [->|(_ & c & msg & ->)]; [now left|]. right. eauto.
Qed.

Lemma sound_catch (m : call) self :
  sound false self (m self) -> sound true self (catch_syntax_error m self).
Proof.
  unfold catch_syntax_error.
  destruct (m self) as [[r self1]|]; [|trivial].
  intros (Ht & He & Hr). destruct r as [n|e].
  - repeat split; assumption.
  - destruct Hr as [->|(_ & c & msg & ->)].
    + repeat split; [assumption|assumption|now left].
    + split; [exact Ht|]. split; [reflexivity|]. cbn. discriminate.
Qed.

Lemma sound_return self n :
  (error_is_true self = false -> tree_ok n = true) ->
  sound false self (Some (Return n, self)).
Proof. intros H. repeat split; auto. Qed.

Lemma number_token tok :
  token_ok tok = true -> fst tok = NUMBER -> Grammar.is_literal (snd tok) = true.
Proof.
  unfold token_ok. intros H Hk. rewrite Hk in H.
  destruct (snd tok) as [|c r]; [discriminate|].
  now destruct (Chars.is_operator c).
Qed.

Lemma still_no_error self self' :
  (error_is_true self = true -> error_is_true self' = true) ->
  error_is_true self' = false -> error_is_true self = false.
Proof. destruct (error_is_true self); [|reflexivity]. intros H. rewrite H; trivial. Qed.

(** On well-formed tokens, every method keeps the tokens and a recorded
    error, returns a well-formed tree unless an error is recorded, and
    raises nothing but what [sound] lists. *)
Lemma parser_sound n :
  (forall self,
      Forall (fun tok => token_ok tok = true) (tokens self) ->
      sound true self (parse_expression n self))
  /\ (forall self t,
         Forall (fun tok => token_ok tok = true) (tokens self) ->
         (error_is_true self = false -> tree_ok t = true) ->
         sound false self (expression_loop n t self))
  /\ (forall self,
         Forall (fun tok => token_ok tok = true) (tokens self) ->
         sound false self (parse_term n self))
  /\ (forall self t,
         Forall (fun tok => token_ok tok = true) (tokens self) ->
         (error_is_true self = false -> tree_ok t = true) ->
         sound false self (term_loop n t self))
  /\ (forall self,
         Forall (fun tok => token_ok tok = true) (tokens self) ->
         sound false self (parse_factor n self)).
Proof.
  induction n as [|n (IHe & IHel & IHt & IHtl & IHf)]; [repeat split; intros; exact I|].
  assert (Hloop : forall set (sub : call) (loop : node -> call) self t,
             (set = "+-" \/ set = "*/") ->
             Forall (fun tok => token_ok tok = true) (tokens self) ->
             (error_is_true self = false -> tree_ok t = true) ->
             (forall self', Forall (fun tok => token_ok tok = true) (tokens self') ->
                            sound false self' (sub self')) ->
             (forall self' t', Forall (fun tok => token_ok tok = true) (tokens self') ->
                               (error_is_true self' = false -> tree_ok t' = true) ->
                               sound false self' (loop t' self')) ->
             sound false self
               match peek self with
               | Some tok =>
                   if Str.substring_of (snd tok) set then
                     bind sub (fun right => loop (bin_op (snd tok) t right)) (consume self)
                   else Some (Return t, self)
               | None => Some (Return t, self)
               end).
  { intros set sub loop self t Hset Hok Ht Hsub Hl.
    destruct (peek self) as [tok|] eqn:Hp; [|now apply sound_return].
    destruct (Str.substring_of (snd tok) set) eqn:Hs; [|now apply sound_return].
    assert (Hop : is_arith (snd tok) = true).
    { apply operator_token.
      - revert Hok. rewrite Forall_lookup. intros Hall. exact (Hall _ _ Hp).
      - destruct Hset as [->| ->]; auto. }
    apply sound_bind with (c1 := false); [reflexivity|trivial|now apply Hsub|].
    intros right self' Htok Herr Hright.
    apply Hl; [now rewrite Htok|].
    intros Hno. cbn [tree_ok]. rewrite Hop, (Hright Hno).
    rewrite Ht; [reflexivity|]. exact (still_no_error (consume self) self' Herr Hno). }
  assert (Ht : forall self,
             Forall (fun tok => token_ok tok = true) (tokens self) ->
             sound false self (parse_term (S n) self)).
  { intros self Hok. cbn [parse_term].
    apply sound_bind with (c1 := false); [reflexivity|trivial|now apply IHf|].
    intros t self' Htok _ Htree. apply IHtl; [now rewrite Htok|exact Htree]. }
  repeat split.
  - intros self Hok. cbn [parse_expression]. apply sound_catch.
    apply sound_bind with (c1 := false); [reflexivity|trivial|now apply IHt|].
    intros t self' Htok _ Htree. apply IHel; [now rewrite Htok|exact Htree].
  - intros self t Hok Htree. cbn [expression_loop].
    apply Hloop; auto.
  - exact Ht.
  - intros self t Hok Htree. cbn [term_loop].
    apply Hloop; auto.
  - intros self Hok. cbn [parse_factor].
    destruct (peek self) as [tok|] eqn:Hp; [|repeat split; auto].
    assert (Htokok : token_ok tok = true).
    { revert Hok. rewrite Forall_lookup. intros Hall. exact (Hall _ _ Hp). }
    assert (Hother : sound false self
      (if String.eqb (snd tok) "(" then
         bind (parse_expression n)
           (fun expr self' =>
              match peek self' with
              | Some tok' =>
                  if String.eqb (snd tok') ")" then Some (Return expr, consume self')
                  else Some (Raise (SyntaxError "Unmatched parenthesis"), self')
              | None => Some (Raise (SyntaxError "Unmatched parenthesis"), self')
              end) (consume self)
       else Some (Raise (SyntaxError ("Unexpected token: " +:+ Repr.tuple tok)), self))).
    { destruct (String.eqb (snd tok) "(").
      - apply sound_bind with (c1 := true); [reflexivity|trivial|now apply IHe|].
        intros expr self' Htok _ Htree.
        destruct (peek self') as [tok'|]; [destruct (String.eqb (snd tok') ")")|];
          repeat split; auto; right; split; eauto.
      - repeat split; auto. right. split; [reflexivity|]. eexists _, _. reflexivity. }
    destruct (fst tok) eqn:Hk; try exact Hother.
    + repeat split; auto. intros _. cbn [tree_ok]. now apply number_token.
    + repeat split; auto.
Qed.

Lemma run_parse_expression_sound toks :
  Forall (fun tok => token_ok tok = true) toks ->
  sound true (init toks) (run_parse_expression (init toks)).
Proof.
  intros H. unfold run_parse_expression.
  destruct (parser_sound (enough (ahead (init toks)))) as (He & _). now apply He.
Qed.

(** Evaluation of a well-formed tree returns a number, or raises a
    [NameError] or a [ZeroDivisionError]. *)
Lemma evaluate_ok t env :
  tree_ok t = true ->
  match evaluate t env with
  | Return (VFloat _) => True
  | Return VNone => False
  | Raise (NameError _) | Raise (ZeroDivisionError _) => True
  | Raise _ => False
  end.
Proof.
  induction t as [text|name|op lhs IHl rhs IHr|]; cbn [tree_ok evaluate].
  - intros H. destruct (of_str_literal text H) as [x ->]. exact I.
  - intros _. now destruct (SymbolTable.get env name).
  - intros H. apply andb_true_iff in H as [H Hr]. apply andb_true_iff in H as [Hop Hl].
    specialize (IHl Hl). specialize (IHr Hr).
    destruct (evaluate lhs env) as [[x|]|[]]; try contradiction; try exact I.
    destruct (evaluate rhs env) as [[y|]|[]]; try contradiction; try exact I.
    unfold is_arith in Hop.
    destruct (String.eqb op "+"); [exact I|].
    destruct (String.eqb op "-"); [exact I|].
    destruct (String.eqb op "*"); [exact I|].
    destruct (String.eqb op "/"); [|discriminate].
    cbn [arith]. unfold float_div. now destruct (Float.is_zero y).
  - discriminate.
Qed.

End Invariants.

(** ** Evaluation of the trees of the grammar *)

Lemma evaluate_closed e env :
  Grammar.closed e = true -> Grammar.literals_ok e = true ->
  evaluate (Grammar.tree e) env
  = match Grammar.value e with
    | Some x => Return (VFloat x)
    | None => Raise division_by_zero
    end.
Proof.
  induction e as [text|name|o lhs IHl rhs IHr]; simpl.
  - intros _ H. destruct (of_str_literal text H) as [x Hx].
    unfold Grammar.literal_value. now rewrite Hx.
  - discriminate.
  - intros Hc Hl. apply andb_true_iff in Hc as [Hc1 Hc2], Hl as [Hl1 Hl2].
    rewrite (IHl Hc1 Hl1), (IHr Hc2 Hl2).
    destruct (Grammar.value lhs) as [x|]; [|reflexivity].
    destruct (Grammar.value rhs) as [y|]; [|reflexivity].
    destruct o; simpl; try reflexivity.
    unfold float_div. now destruct (Float.is_zero y).
Qed.

Lemma value_none e :
  Grammar.closed e = true -> Grammar.literals_ok e = true ->
  (Grammar.value e = None <-> Grammar.zero_divisor e = true).
Proof.
  induction e as [text|name|o lhs IHl rhs IHr]; simpl.
  - intros _ H. destruct (of_str_literal text H) as [x Hx].
    unfold Grammar.literal_value. rewrite Hx. split; discriminate.
  - discriminate.
  - intros Hc Hl. apply andb_true_iff in Hc as [Hc1 Hc2], Hl as [Hl1 Hl2].
    specialize (IHl Hc1 Hl1). specialize (IHr Hc2 Hl2).
    destruct (Grammar.value lhs) as [x|].
    + assert (Hzl : Grammar.zero_divisor lhs = false).
      { destruct (Grammar.zero_divisor lhs); [|reflexivity].
        destruct IHl as [_ H]. now specialize (H eq_refl). }
      rewrite Hzl. simpl.
      destruct (Grammar.value rhs) as [y|].
      * assert (Hzr : Grammar.zero_divisor rhs = false).
        { destruct (Grammar.zero_divisor rhs); [|reflexivity].
          destruct IHr as [_ H]. now specialize (H eq_refl). }
        rewrite Hzr. simpl.
        destruct o; try (split; discriminate).
        destruct (Float.is_zero y); split; (reflexivity || discriminate).
      * destruct IHr as [H _]. rewrite (H eq_refl). simpl. tauto.
    + destruct IHl as [H _]. rewrite (H eq_refl). simpl. tauto.
Qed.

Lemma evaluate_tree e env :
  Grammar.literals_ok e = true ->
  (Grammar.divides e = true /\ evaluate (Grammar.tree e) env = Raise division_by_zero)
  \/ match Grammar.first_unbound e env with
     | Some name =>
         evaluate (Grammar.tree e) env = Raise (NameError ("Undefined variable: " +:+ name))
     | None => exists x, evaluate (Grammar.tree e) env = Return (VFloat x)
     end.
Proof.
  induction e as [text|name|o lhs IHl rhs IHr]; simpl.
  - intros H. destruct (of_str_literal text H) as [x Hx]. right. rewrite Hx. eauto.
  - intros _. right. destruct (SymbolTable.get env name); eauto.
  - intros Hl. apply andb_true_iff in Hl as [Hl1 Hl2].
    destruct (IHl Hl1) as [[Hd He]|Hleft].
    { left. rewrite He, Hd, orb_true_r. split; reflexivity. }
    destruct (Grammar.first_unbound lhs env) as [name|].
    { right. now rewrite Hleft. }
    destruct Hleft as [x Hx]. rewrite Hx.
    destruct (IHr Hl2) as [[Hd He]|Hright].
    { left. rewrite He, Hd, !orb_true_r. split; reflexivity. }
    destruct (Grammar.first_unbound rhs env) as [name|].
    { right. now rewrite Hright. }
    destruct Hright as [y Hy]. rewrite Hy.
    destruct o; simpl; eauto.
    unfold float_div. destruct (Float.is_zero y); eauto.
Qed.

(** ** The driver *)

(** The two parts of an assignment line: the text before the first [=],
    and the text between the first [=] and the next one (or the end of the
    line), both stripped. *)
Lemma assignment_parts_spec line :
  Str.contains "=" line = true ->
  assignment_parts line = Return (variable_of line, expression_of line).
Proof.
  intros H. unfold assignment_parts.
  rewrite split_before_after, H.
  rewrite (split_before_after _ (Str.after "=" line)). reflexivity.
Qed.

Lemma process_assignment_total variable expression env :
  exists o env', process_assignment variable expression env = Some (o, env').
Proof.
  unfold process_assignment.
  destruct (ParserFacts.run_parse_expression_advances
              (Parser.init (Tokenizer.tokenize expression)))
    as (r & self' & -> & _).
  destruct r as [tree|e]; [|eauto].
  destruct tree, (Parser.error_is_true self'); eauto;
    destruct (evaluate _ env); eauto.
Qed.

Lemma process_plain_total tokens env :
  exists o env', process_plain tokens env = Some (o, env').
Proof.
  unfold process_plain, Parser.parse_to_file, Parser.bind.
  destruct (ParserFacts.run_parse_expression_advances (Parser.init tokens))
    as (r & self' & -> & _).
  destruct r as [tree|e]; [|eauto].
  destruct (Parser.error_is_true self') eqn:E; rewrite ?E; eauto.
  destruct (evaluate _ env); eauto.
Qed.

(** Every line has an outcome: the model's parser never stops short. *)
Lemma process_expression_total line env :
  exists o env', process_expression line env = Some (o, env').
Proof.
  unfold process_expression.
  destruct (Str.contains "=" line).
  - destruct (assignment_parts line) as [[v e]|e]; [|eauto].
    apply process_assignment_total.
  - apply process_plain_total.
Qed.

(** What an assignment line does when its right-hand side parses and
    evaluates. *)
Lemma process_assignment_stores variable expression env tree parser v :
  Parser.run_parse_expression (Parser.init (Tokenizer.tokenize expression))
    = Some (Return tree, parser) ->
  tree <> None_node ->
  Parser.error_is_true parser = false ->
  evaluate tree env = Return v ->
  process_assignment variable expression env
  = Some (Assigned variable v, SymbolTable.set env variable v).
Proof.
  intros Hp Hn He Hv. unfold process_assignment. rewrite Hp, He, Hv.
  destruct tree; congruence.
Qed.

Lemma process_assignment_failure variable expression env o env' :
  process_assignment variable expression env = Some (o, env') ->
  is_failure o = true -> env' = env.
Proof.
  unfold process_assignment.
  destruct (Parser.run_parse_expression _) as [[[tree|e] parser]|]; [| |discriminate].
  - destruct tree, (Parser.error_is_true parser);
      try (intros [= <- <-]; reflexivity);
      destruct (evaluate _ env); intros [= <- <-]; trivial; discriminate.
  - intros [= <- <-]; reflexivity.
Qed.

Lemma process_plain_unchanged tokens env o env' :
  process_plain tokens env = Some (o, env') -> env' = env.
Proof.
  unfold process_plain.
  destruct (Parser.parse_to_file _) as [[[tree|e] parser]|]; [| |discriminate].
  - destruct (Parser.error_is_true parser); [intros [= <- <-]; reflexivity|].
    destruct (evaluate _ env); intros [= <- <-]; reflexivity.
  - intros [= <- <-]; reflexivity.
Qed.

(** The right-hand side the driver extracts never holds an [=]. *)
Lemma expression_of_plain line : Str.contains "=" (expression_of line) = false.
Proof. apply contains_rstrip, contains_lstrip, contains_before. Qed.

(** An assignment line whose right-hand side, taken as a line of its own,
    has the result [v], stores [v]. *)
Lemma process_expression_assigns line env v :
  Str.contains "=" line = true ->
  process_expression (expression_of line) env = Some (Result v, env) ->
  process_expression line env
  = Some (Assigned (variable_of line) v, SymbolTable.set env (variable_of line) v).
Proof.
  intros Hc Hr. unfold process_expression in *.
  rewrite expression_of_plain in Hr. rewrite Hc, (assignment_parts_spec _ Hc).
  unfold process_plain, Parser.parse_to_file, Parser.bind, Tokenizer.tokenize_to_file in Hr.
  destruct (Parser.run_parse_expression _) as [[[tree|e] parser]|] eqn:Hp;
    [| discriminate | discriminate].
  destruct (Parser.error_is_true parser) eqn:He; rewrite He in Hr; [discriminate|].
  destruct (evaluate tree env) as [v'|e] eqn:Hv; [|discriminate].
  injection Hr as ->.
  apply process_assignment_stores with (tree := tree) (parser := parser); trivial.
  intros ->. discriminate.
Qed.

(** *** The outcomes lines have *)

Lemma error_text parser :
  Parser.error_is_true parser = true ->
  exists c msg, Parser.error parser = Some (String c msg).
Proof.
  unfold Parser.error_is_true. destruct (Parser.error parser) as [[|c msg]|]; try discriminate.
  eauto.
Qed.

(** Whatever the line, its outcome is one of the regular ones: no [None]
    is computed with or stored, [float] is given no text it cannot
    convert, and the only exception that leaves [process_expression] is
    the [TypeError] of [parse_factor]. *)
Lemma process_expression_regular line env o env' :
  process_expression line env = Some (o, env') -> regular o = true.
Proof.
  unfold process_expression, Tokenizer.tokenize_to_file.
  destruct (Str.contains "=" line) eqn:Hc.
  - rewrite (assignment_parts_spec _ Hc). unfold process_assignment.
    pose proof (Invariants.run_parse_expression_sound _
                  (Invariants.tokenize_ok (expression_of line))) as Hs.
    destruct (Parser.run_parse_expression _) as [[[tree|e] parser]|]; [| |discriminate].
    + destruct Hs as (_ & _ & Htree).
      destruct (Parser.error_is_true parser) eqn:He.
      * destruct (error_text parser He) as (c & msg & Hmsg).
        destruct tree; intros [= <- <-]; now rewrite Hmsg.
      * specialize (Htree eq_refl).
        destruct tree; try discriminate Htree;
          (destruct (evaluate _ env) as [v|err] eqn:Hv; intros [= <- <-];
           match goal with
           | H : evaluate ?t env = _ |- _ =>
               pose proof (Invariants.evaluate_ok t env Htree) as Hok; rewrite H in Hok
           end;
           [destruct v; [reflexivity|contradiction]
           |destruct err; (reflexivity || contradiction)]).
    + destruct Hs as (_ & _ & [->|(Hf & _)]); [|discriminate Hf].
      now intros [= <- <-].
  - unfold process_plain, Parser.parse_to_file, Parser.bind.
    pose proof (Invariants.run_parse_expression_sound _
                  (Invariants.tokenize_ok line)) as Hs.
    destruct (Parser.run_parse_expression _) as [[[tree|e] parser]|]; [| |discriminate].
    + destruct Hs as (_ & _ & Htree).
      destruct (Parser.error_is_true parser) eqn:He; rewrite ?He.
      * destruct (error_text parser He) as (c & msg & Hmsg).
        intros [= <- <-]. now rewrite Hmsg.
      * specialize (Htree eq_refl).
        pose proof (Invariants.evaluate_ok tree env Htree) as Hok.
        destruct (evaluate tree env) as [v|err]; intros [= <- <-].
        -- destruct v; [reflexivity|contradiction].
        -- destruct err; (reflexivity || contradiction).
    + destruct Hs as (_ & _ & [->|(Hf & _)]); [|discriminate Hf].
      now intros [= <- <-].
Qed.

(** *** Lines that are expressions of the grammar *)

Lemma derives_no_assign l ts e :
  Grammar.derives l ts e -> ~ In (ASSIGN, "=") ts.
Proof.
  induction 1; simpl; rewrite ?in_app_iff; simpl; rewrite ?in_app_iff; simpl;
    try tauto; intuition discriminate.
Qed.

Lemma derives_plain_line l line e :
  Grammar.derives l (Tokenizer.tokenize line) e -> Str.contains "=" line = false.
Proof.
  intros H. destruct (Str.contains "=" line) eqn:Hc; [|reflexivity].
  exfalso. apply (derives_no_assign _ _ _ H).
  now apply finditer_assign.
Qed.

Lemma derives_literals_ok l ts e :
  Grammar.derives l ts e -> Grammar.literals_ok e = true.
Proof. induction 1; simpl; trivial. all: now rewrite IHderives1, IHderives2. Qed.

(** A line whose tokens are an expression of the grammar is evaluated on
    the tree of its structure. *)
Lemma process_expression_derived line e env :
  Grammar.derives Grammar.Expression (Tokenizer.tokenize line) e ->
  process_expression line env
  = Some (match evaluate (Grammar.tree e) env with
          | Return v => Result v
          | Raise err => Evaluation_error err
          end, env).
Proof.
  intros H. unfold process_expression, process_plain, Parser.parse_to_file, Parser.bind,
    Tokenizer.tokenize_to_file.
  rewrite (derives_plain_line _ _ _ H), (Completeness.parse_expression_complete _ _ H).
  simpl. now destruct (evaluate (Grammar.tree e) env).
Qed.

(** An assignment line whose right-hand side is an expression of the
    grammar stores the value of the tree of its structure, or fails as the
    evaluation of that tree does. *)
Lemma process_assignment_derived variable expression e env :
  Grammar.derives Grammar.Expression (Tokenizer.tokenize expression) e ->
  process_assignment variable expression env
  = Some match evaluate (Grammar.tree e) env with
         | Return v => (Assigned variable v, SymbolTable.set env variable v)
         | Raise err => (Evaluation_error err, env)
         end.
Proof.
  intros H. unfold process_assignment.
  rewrite (Completeness.parse_expression_complete _ _ H).
  change (Parser.error_is_true (Parser.mk _ _ None)) with false.
  destruct e; cbn [Grammar.tree]; now destruct (evaluate _ env).
Qed.

(** *** Lines that are an identifier *)

Lemma letter_kind c :
  Chars.is_letter c = true ->
  Chars.is_digit c = false /\ Chars.is_operator c = false /\ Chars.is_paren c = false
  /\ Chars.is_word c = true.
Proof.
  destruct c as [[] [] [] [] [] [] [] []]; vm_compute; intros H;
    first [discriminate H|repeat split].
Qed.

Lemma span_word_name r :
  forallb (fun d => Chars.is_letter d || Chars.is_digit d) (list_ascii_of_string r) = true ->
  Str.span Chars.is_word r = (r, EmptyString).
Proof.
  induction r as [|d r IH]; [reflexivity|]. cbn [list_ascii_of_string forallb Str.span].
  intros H. apply andb_true_iff in H as [Hd Hr]. rewrite (IH Hr).
  assert (Hw : Chars.is_word d = true).
  { unfold Chars.is_word. apply orb_true_iff in Hd as [Hd|Hd]; rewrite Hd;
      rewrite ?orb_true_r; reflexivity. }
  now rewrite Hw.
Qed.

(** The tokenizer makes one [IDENTIFIER] token of an identifier. *)
Lemma identifier_tokens s :
  is_identifier s = true -> Tokenizer.tokenize s = [(IDENTIFIER, s)].
Proof.
  destruct s as [|c r]; [discriminate|]. cbn [is_identifier].
  intros H. apply andb_true_iff in H as [Hc Hr].
  destruct (letter_kind c Hc) as (Hd & Ho & Hp & _).
  unfold Tokenizer.tokenize. cbn [String.length Tokenizer.finditer].
  unfold Tokenizer.match_token, Tokenizer.match_number. cbn [Str.span].
  rewrite Hd, Ho, Hp, Hc, (span_word_name r Hr). now destruct (String.length r).
Qed.

(** A line that is an identifier gives what the symbol table has for it,
    and the line of the identifier, [ + 1] after it, one more. *)
Lemma identifier_line s env x :
  is_identifier s = true -> SymbolTable.get env s = VFloat x ->
  process_expression s env = Some (Result (VFloat x), env)
  /\ process_expression (s +:+ " + 1") env = Some (Result (VFloat (x + 1)), env).
Proof.
  intros Hs Hg. split.
  - rewrite (process_expression_derived s (Grammar.Name s) env).
    + cbn [Grammar.tree evaluate]. now rewrite Hg.
    + rewrite (identifier_tokens s Hs).
      exact (Grammar.D_term _ _ (Grammar.D_factor _ _ (Grammar.D_identifier s))).
  - rewrite (process_expression_derived (s +:+ " + 1")
               (Grammar.Binary Grammar.Add (Grammar.Name s) (Grammar.Literal "1")) env).
    + cbn [Grammar.tree Grammar.symbol evaluate]. rewrite Hg.
      change (Float.of_str "1") with (@Return float 1%float). reflexivity.
    + unfold Tokenizer.tokenize.
      rewrite (finditer_skips " " "+ 1" (String.length s) eq_refl s _ (le_n _) (le_n _)).
      fold (Tokenizer.tokenize s). rewrite (identifier_tokens s Hs).
      exact (Grammar.D_additive Grammar.Add [(IDENTIFIER, s)] _ _ _ eq_refl
               (Grammar.D_term _ _ (Grammar.D_factor _ _ (Grammar.D_identifier s)))
               (Grammar.D_factor _ _ (Grammar.D_number "1" eq_refl))).
Qed.

(** *** The first failure of an evaluation *)

(** An expression all of whose identifiers have values: its evaluation
    raises the [ZeroDivisionError] when some divisor is zero, and returns
    its value otherwise. *)
Lemma evaluate_bound e env :
  Grammar.literals_ok e = true -> Grammar.first_unbound e env = None ->
  (Grammar.zero_divisor_in e env = true
   /\ evaluate (Grammar.tree e) env = Raise division_by_zero)
  \/ (Grammar.zero_divisor_in e env = false
      /\ exists x, Grammar.value_in e env = Some x
                   /\ evaluate (Grammar.tree e) env = Return (VFloat x)).
Proof.
  induction e as [text|name|o lhs IHl rhs IHr];
    cbn [Grammar.literals_ok Grammar.first_unbound Grammar.zero_divisor_in Grammar.value_in
         Grammar.tree evaluate].
  - intros H _. destruct (of_str_literal text H) as [x Hx]. right.
    unfold Grammar.literal_value. rewrite Hx. eauto.
  - intros _. destruct (SymbolTable.get env name) as [x|]; [|discriminate].
    intros _. right. eauto.
  - intros Hl. apply andb_true_iff in Hl as [Hl1 Hl2].
    destruct (Grammar.first_unbound lhs env) as [n|] eqn:Hul; [discriminate|].
    intros Hur.
    destruct (IHl Hl1 eq_refl) as [[Hz He]|(Hz & x & Hx & He)]; rewrite Hz, He.
    { left. split; reflexivity. }
    destruct (IHr Hl2 Hur) as [[Hz' He']|(Hz' & y & Hy & He')]; rewrite Hz', He'.
    { left. split; reflexivity. }
    rewrite Hx, Hy. cbn [orb].
    destruct o; cbn [Grammar.symbol String.eqb Ascii.eqb Bool.eqb arith];
      try (right; split; [reflexivity|eauto]).
    unfold float_div. destruct (Float.is_zero y); [left; auto|right; eauto].
Qed.

(** The exception that ends the evaluation of an expression with an
    identifier that has no value. *)
Lemma evaluate_unbound e env name :
  Grammar.literals_ok e = true -> Grammar.first_unbound e env = Some name ->
  evaluate (Grammar.tree e) env
  = Raise (if Grammar.division_before_unbound e env then division_by_zero
           else NameError ("Undefined variable: " +:+ name)).
Proof.
  revert name.
  induction e as [text|x|o lhs IHl rhs IHr]; intros name;
    cbn [Grammar.literals_ok Grammar.first_unbound Grammar.division_before_unbound
         Grammar.tree evaluate].
  - discriminate.
  - intros _. destruct (SymbolTable.get env x); [discriminate|].
    now intros [= <-].
  - intros Hl. apply andb_true_iff in Hl as [Hl1 Hl2].
    destruct (Grammar.first_unbound lhs env) as [n|] eqn:Hul.
    + intros [= <-]. now rewrite (IHl n Hl1 eq_refl).
    + intros Hur.
      destruct (evaluate_bound lhs env Hl1 Hul) as [[Hz He]|(Hz & x & _ & He)];
        rewrite Hz, He; [reflexivity|].
      now rewrite (IHr name Hl2 Hur).
Qed.

Lemma no_division_before e env :
  Grammar.divides e = false ->
  Grammar.zero_divisor_in e env = false /\ Grammar.division_before_unbound e env = false.
Proof.
  induction e as [text|x|o lhs IHl rhs IHr];
    cbn [Grammar.divides Grammar.zero_divisor_in Grammar.division_before_unbound]; auto.
  intros H. apply orb_false_iff in H as [H Hr]. apply orb_false_iff in H as [Ho Hl].
  destruct (IHl Hl) as [Hzl Hbl], (IHr Hr) as [Hzr Hbr]. rewrite Hzl, Hzr, Hbl, Hbr.
  split; [|now destruct (Grammar.first_unbound lhs env)].
  now destruct o.
Qed.

(** * The claims *)

(** C1 (amended).  The tokenizer never fails: it returns a token list for
    every text.  A character that no token pattern matches is skipped,
    whether it is whitespace or not: with or without it, and with a space
    in its place, the tokens are the same. *)
Theorem unknown_character_is_skipped a c b :
  Chars.in_pattern c = false ->
  Tokenizer.tokenize (a +:+ String c b) = Tokenizer.tokenize a ++ Tokenizer.tokenize b
  /\ Tokenizer.tokenize (a +:+ String c b) = Tokenizer.tokenize (a +:+ String " " b).
Proof.
  intros Hc.
  assert (H : forall d, Chars.in_pattern d = false ->
            Tokenizer.tokenize (a +:+ String d b)
            = Tokenizer.tokenize a ++ Tokenizer.tokenize b).
  { intros d Hd. unfold Tokenizer.tokenize at 1 2.
    apply finditer_skips; [assumption|reflexivity|reflexivity]. }
  split; [now apply H|]. rewrite (H c Hc). symmetry. apply H. reflexivity.
Qed.

Lemma unknown_character_is_skipped_witness :
  Tokenizer.tokenize ("2 " +:+ String "&" " 3")
    = Tokenizer.tokenize "2 " ++ Tokenizer.tokenize " 3"
  /\ Tokenizer.tokenize ("2 " +:+ String "&" " 3")
    = Tokenizer.tokenize ("2 " +:+ String " " " 3").
Proof. apply (unknown_character_is_skipped "2 " "&" " 3"). reflexivity. Defined.

(** C1 (as stated) fails: ["2 & 3"] holds [&], which no pattern matches
    and which is not whitespace, yet the tokenizer returns tokens, none of
    them for [&], and the line has a result. *)
Lemma ampersand_is_not_an_error :
  Chars.in_pattern "&" = false
  /\ Chars.is_space "&" = false
  /\ Tokenizer.tokenize "2 & 3" = [(NUMBER, "2"); (NUMBER, "3")]
  /\ process_expression "2 & 3" ∅ = Some (Result (VFloat 2), ∅).
Proof. repeat split. Qed.

(** C2 (what the code does instead).  Where a factor is required and no
    token is left, [parse_factor] subscripts [None]: the [TypeError] is not
    a [SyntaxError], so [parse_expression] does not catch it, and
    [process_expression] calls the parser outside any [try].  The lines
    ["2 +"] and [""] therefore end in an uncaught exception, not in a
    parse failure returned as a value; an unexpected token in that place,
    as in ["2 + )"], is reported as a parsing error that names it. *)
Theorem missing_operand_is_uncaught (env : SymbolTable.t) :
  process_expression "2 +" env = Some (Uncaught not_subscriptable, env)
  /\ process_expression "" env = Some (Uncaught not_subscriptable, env)
  /\ Parser.run_parse_expression (Parser.init [(NUMBER, "2"); (OPERATOR, "+")])
     = Some (Raise not_subscriptable,
             Parser.mk [(NUMBER, "2"); (OPERATOR, "+")] 2 None)
  /\ (forall fuel self,
         Parser.peek self = None ->
         Parser.parse_factor (S fuel) self = Some (Raise not_subscriptable, self))
  /\ process_expression "2 + )" env
     = Some (Parsing_error (Some "Unexpected token: ('PAREN', ')')"), env).
Proof.
  split; [reflexivity|]. split; [reflexivity|]. split; [reflexivity|].
  split; [|reflexivity].
  intros fuel self H. cbn [Parser.parse_factor]. now rewrite H.
Qed.

(** C3 (amended).  A division whose right operand evaluates to zero raises
    [ZeroDivisionError] ("float division by zero"): evaluation fails, it
    does not yield an infinity.  A line whose tree is such a division is
    reported as an evaluation error, the symbol table is unchanged, and
    processing the line again gives the same failure. *)
Theorem division_by_zero_raises lhs rhs env x y :
  evaluate lhs env = Return (VFloat x) ->
  evaluate rhs env = Return (VFloat y) ->
  Float.is_zero y = true ->
  evaluate (bin_op "/" lhs rhs) env = Raise division_by_zero
  /\ forall line parser,
       Str.contains "=" line = false ->
       Parser.run_parse_expression (Parser.init (Tokenizer.tokenize line))
         = Some (Return (bin_op "/" lhs rhs), parser) ->
       Parser.error_is_true parser = false ->
       process_lines [line; line] env
       = Some ([Evaluation_error division_by_zero; Evaluation_error division_by_zero], env).
Proof.
  intros Hl Hr Hz.
  assert (He : evaluate (bin_op "/" lhs rhs) env = Raise division_by_zero).
  { simpl. rewrite Hl, Hr. simpl. unfold float_div. now rewrite Hz. }
  split; [exact He|].
  intros line parser Hc Hp Herr.
  assert (H1 : process_expression line env = Some (Evaluation_error division_by_zero, env)).
  { unfold process_expression, process_plain, Parser.parse_to_file, Parser.bind,
      Tokenizer.tokenize_to_file.
    rewrite Hc, Hp, Herr, Herr, He. reflexivity. }
  cbn [process_lines]. rewrite H1. cbn [process_lines]. rewrite H1. reflexivity.
Qed.

Lemma division_by_zero_raises_witness :
  evaluate (bin_op "/" (number "4") (number "0")) sample_table = Raise division_by_zero
  /\ process_lines ["4 / 0"; "4 / 0"] sample_table
     = Some ([Evaluation_error division_by_zero; Evaluation_error division_by_zero],
             sample_table).
Proof.
  destruct (division_by_zero_raises (number "4") (number "0") sample_table 4%float 0%float)
    as [He Hl]; [reflexivity|reflexivity|reflexivity|].
  split; [exact He|].
  apply (Hl "4 / 0" (Parser.mk (Tokenizer.tokenize "4 / 0") 3 None)); reflexivity.
Defined.

(** C3 (as stated) fails: the line ["4 / 0"] ends in an evaluation error,
    not in a result. *)
Lemma four_by_zero_is_a_failure :
  process_expression "4 / 0" ∅ = Some (Evaluation_error division_by_zero, ∅)
  /\ is_failure (Evaluation_error division_by_zero) = true.
Proof. split; reflexivity. Qed.

(** C4 (amended).  A line that holds an [=] is cut at every [=]: the
    variable name is the stripped text left of the first [=], and the
    expression that is tokenized, parsed and evaluated is the stripped text
    between the first [=] and the second one (up to the end of the line
    when there is no second one). *)
Theorem assignment_uses_second_part line env :
  Str.contains "=" line = true ->
  assignment_parts line = Return (variable_of line, expression_of line)
  /\ process_expression line env
     = process_assignment (variable_of line) (expression_of line) env.
Proof.
  intros H. pose proof (assignment_parts_spec line H) as Hp.
  split; [exact Hp|]. unfold process_expression. now rewrite H, Hp.
Qed.

Lemma assignment_uses_second_part_witness :
  assignment_parts "x = 5 = 6" = Return ("x", "5")
  /\ process_expression "x = 5 = 6" sample_table
     = process_assignment "x" "5" sample_table.
Proof.
  apply (assignment_uses_second_part "x = 5 = 6" sample_table). reflexivity.
Defined.

(** C4 (as stated) fails.  In ["x = 5 = 6"] the text after the first [=]
    is ["5 = 6"], but the expression the driver takes is ["5"]; and for
    ["x == 5"] the driver hands the parser the empty text, which ends in an
    uncaught exception, where the text after the first [=] would have
    been reported as a parsing error. *)
Lemma remainder_is_not_the_expression :
  remainder_of "x = 5 = 6" = "5 = 6"
  /\ assignment_parts "x = 5 = 6" = Return ("x", "5")
  /\ remainder_of "x == 5" = "= 5"
  /\ assignment_parts "x == 5" = Return ("x", "")
  /\ process_expression "x == 5" ∅ = Some (Uncaught not_subscriptable, ∅)
  /\ process_assignment "x" (remainder_of "x == 5") ∅
     = Some (Parsing_error (Some "Unexpected token: ('ASSIGN', '=')"), ∅).
Proof. repeat split. Qed.

(** C5.  A line whose processing ends in a failure, at whatever stage and
    whether or not it is an assignment, leaves the symbol table exactly as
    it was. *)
Theorem failure_keeps_table line env o env' :
  process_expression line env = Some (o, env') ->
  is_failure o = true ->
  env' = env.
Proof.
  unfold process_expression.
  destruct (Str.contains "=" line).
  - destruct (assignment_parts line) as [[variable expression]|e].
    + apply process_assignment_failure.
    + now intros [= <- <-].
  - intros H _. now apply process_plain_unchanged in H.
Qed.

Lemma failure_keeps_table_witness :
  process_expression "x = (2 + 3" sample_table
    = Some (Parsing_error (Some "Unmatched parenthesis"), sample_table)
  /\ is_failure (Parsing_error (Some "Unmatched parenthesis")) = true
  /\ sample_table = sample_table.
Proof.
  split; [vm_compute; reflexivity|]. split; [reflexivity|].
  apply (failure_keeps_table "x = (2 + 3" sample_table
           (Parsing_error (Some "Unmatched parenthesis")) sample_table);
    [vm_compute; reflexivity|reflexivity].
Defined.

(** C6 (amended).  For every line whose tokens are an arithmetic
    expression of the grammar without identifiers, the outcome is fixed by
    the value the expression has under the usual precedence and left
    associativity, computed in binary64 arithmetic: when no divisor is
    zero, evaluation succeeds with that value; when a divisor is zero, it
    fails with a division by zero.  So ["2 + 3 * 4"] gives [14] and
    ["(2 + 3) * 4"] gives [20]. *)
Theorem closed_expression_value line e env :
  Grammar.derives Grammar.Expression (Tokenizer.tokenize line) e ->
  Grammar.closed e = true ->
  process_expression line env
  = Some (match Grammar.value e with
          | Some x => Result (VFloat x)
          | None => Evaluation_error division_by_zero
          end, env)
  /\ (Grammar.value e = None <-> Grammar.zero_divisor e = true).
Proof.
  intros Hd Hc. pose proof (derives_literals_ok _ _ _ Hd) as Hl. split.
  - rewrite (process_expression_derived _ _ _ Hd), (evaluate_closed _ _ Hc Hl).
    now destruct (Grammar.value e).
  - now apply value_none.
Qed.

Lemma closed_expression_value_witness :
  process_expression "2 + 3 * 4" sample_table = Some (Result (VFloat 14), sample_table)
  /\ process_expression "(2 + 3) * 4" sample_table = Some (Result (VFloat 20), sample_table)
  /\ process_expression "8 - 4 - 2" sample_table = Some (Result (VFloat 2), sample_table)
  /\ process_expression "8 / 4 / 2" sample_table = Some (Result (VFloat 1), sample_table).
Proof.
  split; [|split; [|split]].
  - apply (proj1 (closed_expression_value "2 + 3 * 4"
             (Grammar.Binary Grammar.Add (Grammar.Literal "2")
                (Grammar.Binary Grammar.Mul (Grammar.Literal "3") (Grammar.Literal "4")))
             sample_table
             (Grammar.D_additive Grammar.Add [(NUMBER, "2")] _ _ _ eq_refl
                (Grammar.D_term _ _ (Grammar.D_factor _ _ (Grammar.D_number "2" eq_refl)))
                (Grammar.D_multiplicative Grammar.Mul [(NUMBER, "3")] _ _ _ eq_refl
                   (Grammar.D_factor _ _ (Grammar.D_number "3" eq_refl))
                   (Grammar.D_number "4" eq_refl)))
             eq_refl)).
  - apply (proj1 (closed_expression_value "(2 + 3) * 4"
             (Grammar.Binary Grammar.Mul
                (Grammar.Binary Grammar.Add (Grammar.Literal "2") (Grammar.Literal "3"))
                (Grammar.Literal "4"))
             sample_table
             (Grammar.D_term _ _
                (Grammar.D_multiplicative Grammar.Mul
                   [(PAREN, "("); (NUMBER, "2"); (OPERATOR, "+"); (NUMBER, "3"); (PAREN, ")")]
                   _ _ _ eq_refl
                   (Grammar.D_factor _ _
                      (Grammar.D_paren [(NUMBER, "2"); (OPERATOR, "+"); (NUMBER, "3")] _
                         (Grammar.D_additive Grammar.Add [(NUMBER, "2")] _ _ _ eq_refl
                            (Grammar.D_term _ _
                               (Grammar.D_factor _ _ (Grammar.D_number "2" eq_refl)))
                            (Grammar.D_factor _ _ (Grammar.D_number "3" eq_refl)))))
                   (Grammar.D_number "4" eq_refl)))
             eq_refl)).
  - apply (proj1 (closed_expression_value "8 - 4 - 2"
             (Grammar.Binary Grammar.Sub
                (Grammar.Binary Grammar.Sub (Grammar.Literal "8") (Grammar.Literal "4"))
                (Grammar.Literal "2"))
             sample_table
             (Grammar.D_additive Grammar.Sub
                [(NUMBER, "8"); (OPERATOR, "-"); (NUMBER, "4")] _ _ _ eq_refl
                (Grammar.D_additive Grammar.Sub [(NUMBER, "8")] _ _ _ eq_refl
                   (Grammar.D_term _ _ (Grammar.D_factor _ _ (Grammar.D_number "8" eq_refl)))
                   (Grammar.D_factor _ _ (Grammar.D_number "4" eq_refl)))
                (Grammar.D_factor _ _ (Grammar.D_number "2" eq_refl)))
             eq_refl)).
  - apply (proj1 (closed_expression_value "8 / 4 / 2"
             (Grammar.Binary Grammar.Div
                (Grammar.Binary Grammar.Div (Grammar.Literal "8") (Grammar.Literal "4"))
                (Grammar.Literal "2"))
             sample_table
             (Grammar.D_term _ _
                (Grammar.D_multiplicative Grammar.Div
                   [(NUMBER, "8"); (OPERATOR, "/"); (NUMBER, "4")] _ _ _ eq_refl
                   (Grammar.D_multiplicative Grammar.Div [(NUMBER, "8")] _ _ _ eq_refl
                      (Grammar.D_factor _ _ (Grammar.D_number "8" eq_refl))
                      (Grammar.D_number "4" eq_refl))
                   (Grammar.D_number "2" eq_refl)))
             eq_refl)).
Defined.

(** C6 (as stated) fails.  ["1 / 0"] is an expression of the grammar
    without identifiers, and its evaluation does not succeed; and the sum
    ["0.1 + 0.2"] is not the number that ["0.3"] is. *)
Lemma one_by_zero_does_not_succeed :
  Grammar.derives Grammar.Expression (Tokenizer.tokenize "1 / 0")
    (Grammar.Binary Grammar.Div (Grammar.Literal "1") (Grammar.Literal "0"))
  /\ process_expression "1 / 0" ∅ = Some (Evaluation_error division_by_zero, ∅)
  /\ process_expression "0.1 + 0.2" ∅ = Some (Result (VFloat 0x1.3333333333334p-2), ∅)
  /\ process_expression "0.3" ∅ = Some (Result (VFloat 0x1.3333333333333p-2), ∅).
Proof.
  split; [|repeat split].
  exact (Grammar.D_term _ _
           (Grammar.D_multiplicative Grammar.Div [(NUMBER, "1")] _ _ _ eq_refl
              (Grammar.D_factor _ _ (Grammar.D_number "1" eq_refl))
              (Grammar.D_number "0" eq_refl))).
Qed.

(** C7.  An assignment line whose right-hand side evaluates to a number
    stores that number under the variable name, where later lines read
    it: when the variable name is an identifier, the line of the name
    alone then gives the number, and the line of the name with [ + 1]
    after it gives the number plus one; a second assignment to the name
    replaces the first, and the line of the name then gives the second
    number.  After ["x = 5"] the table maps [x] to [5.0] and ["x + 1"]
    gives [6.0]; after ["x = 5"] and ["x = 10"], ["x"] gives [10.0]. *)
Theorem assignment_is_stored :
  (forall line env x,
      Str.contains "=" line = true ->
      process_expression (expression_of line) env = Some (Result (VFloat x), env) ->
      exists env',
        process_expression line env = Some (Assigned (variable_of line) (VFloat x), env')
        /\ env' = SymbolTable.set env (variable_of line) (VFloat x)
        /\ SymbolTable.get env' (variable_of line) = VFloat x
        /\ evaluate (identifier (variable_of line)) env' = Return (VFloat x)
        /\ (forall y, SymbolTable.set env' (variable_of line) y
                      = SymbolTable.set env (variable_of line) y)
        /\ (is_identifier (variable_of line) = true ->
            process_expression (variable_of line) env' = Some (Result (VFloat x), env')
            /\ process_expression (variable_of line +:+ " + 1") env'
               = Some (Result (VFloat (x + 1)), env')
            /\ forall again x',
                 Str.contains "=" again = true ->
                 variable_of again = variable_of line ->
                 process_expression (expression_of again) env'
                 = Some (Result (VFloat x'), env') ->
                 process_lines [line; again; variable_of line] env
                 = Some ([Assigned (variable_of line) (VFloat x);
                          Assigned (variable_of line) (VFloat x');
                          Result (VFloat x')],
                         SymbolTable.set env (variable_of line) (VFloat x'))))
  /\ process_lines ["x = 5"; "x + 1"] ∅
     = Some ([Assigned "x" (VFloat 5); Result (VFloat 6)], {[ "x" := VFloat 5 ]})
  /\ process_lines ["x = 5"; "x = 10"; "x"] ∅
     = Some ([Assigned "x" (VFloat 5); Assigned "x" (VFloat 10); Result (VFloat 10)],
             {[ "x" := VFloat 10 ]}).
Proof.
  split; [|split; vm_compute; reflexivity].
  intros line env x Hc Hr.
  pose proof (process_expression_assigns line env (VFloat x) Hc Hr) as Hline.
  exists (SymbolTable.set env (variable_of line) (VFloat x)).
  split; [exact Hline|]. split; [reflexivity|].
  assert (Hg : forall table v,
             SymbolTable.get (SymbolTable.set table (variable_of line) v) (variable_of line)
             = v).
  { intros table v. unfold SymbolTable.get, SymbolTable.set. now rewrite lookup_insert_eq. }
  assert (Hset : forall y,
             SymbolTable.set (SymbolTable.set env (variable_of line) (VFloat x))
               (variable_of line) y
             = SymbolTable.set env (variable_of line) y).
  { intros y. unfold SymbolTable.set. apply insert_insert_eq. }
  split; [apply Hg|]. split; [simpl; now rewrite Hg|]. split; [exact Hset|].
  intros Hid. destruct (identifier_line _ _ x Hid (Hg env (VFloat x))) as [Hname Hplus].
  split; [exact Hname|]. split; [exact Hplus|].
  intros again x' Hc' Hvar Hr'.
  pose proof (process_expression_assigns again _ (VFloat x') Hc' Hr') as Hagain.
  rewrite Hvar, Hset in Hagain.
  cbn [process_lines]. rewrite Hline, Hagain.
  destruct (identifier_line _ _ x' Hid (Hg env (VFloat x'))) as [Hname' _].
  now rewrite Hname'.
Qed.

Lemma assignment_is_stored_witness :
  process_expression "rate = 5" sample_table
  = Some (Assigned "rate" (VFloat 5), <[ "rate" := VFloat 5 ]> sample_table)
  /\ SymbolTable.get (<[ "rate" := VFloat 5 ]> sample_table) "rate" = VFloat 5
  /\ process_expression "rate" (<[ "rate" := VFloat 5 ]> sample_table)
     = Some (Result (VFloat 5), <[ "rate" := VFloat 5 ]> sample_table)
  /\ process_expression "rate + 1" (<[ "rate" := VFloat 5 ]> sample_table)
     = Some (Result (VFloat 6), <[ "rate" := VFloat 5 ]> sample_table)
  /\ process_lines ["rate = 5"; "rate = rate * 2"; "rate"] sample_table
     = Some ([Assigned "rate" (VFloat 5); Assigned "rate" (VFloat 10); Result (VFloat 10)],
             <[ "rate" := VFloat 10 ]> sample_table).
Proof.
  destruct (proj1 assignment_is_stored "rate = 5" sample_table 5%float eq_refl eq_refl)
    as (env' & Hline & -> & Hget & _ & _ & Hlater).
  destruct (Hlater eq_refl) as (Hname & Hplus & Hagain).
  split; [exact Hline|]. split; [exact Hget|]. split; [exact Hname|].
  split; [exact Hplus|].
  exact (Hagain "rate = rate * 2" 10%float eq_refl eq_refl eq_refl).
Defined.

(** C8 (amended).  For every line whose tokens are an expression of the
    grammar in which some identifier has no value in the symbol table,
    evaluation fails with an exception that the driver reports as an
    evaluation error, for the line itself and for an assignment with the
    line as its right-hand side, and the symbol table is unchanged.
    Operands are evaluated from left to right and the first failure ends
    the evaluation: the exception is the [NameError] that names the first
    such identifier, unless a division by zero is evaluated before that
    identifier is reached, and then it is the [ZeroDivisionError]; in an
    expression without [/] it is always that [NameError]. *)
Theorem unbound_identifier_fails line e env name :
  Grammar.derives Grammar.Expression (Tokenizer.tokenize line) e ->
  Grammar.first_unbound e env = Some name ->
  exists err,
    evaluate (Grammar.tree e) env = Raise err
    /\ process_expression line env = Some (Evaluation_error err, env)
    /\ (forall assignment,
           Str.contains "=" assignment = true -> expression_of assignment = line ->
           process_expression assignment env = Some (Evaluation_error err, env))
    /\ err = (if Grammar.division_before_unbound e env then division_by_zero
              else NameError ("Undefined variable: " +:+ name))
    /\ (Grammar.divides e = false -> err = NameError ("Undefined variable: " +:+ name)).
Proof.
  intros Hd Hu. pose proof (derives_literals_ok _ _ _ Hd) as Hl.
  pose proof (process_expression_derived line e env Hd) as Hp.
  pose proof (evaluate_unbound e env name Hl Hu) as He.
  eexists. split; [exact He|]. rewrite He in Hp. split; [exact Hp|].
  split; [|split; [reflexivity|]].
  - intros assignment Hc Hline. unfold process_expression.
    rewrite Hc, (assignment_parts_spec _ Hc), Hline.
    now rewrite (process_assignment_derived _ line e env Hd), He.
  - intros Hdiv. now rewrite (proj2 (no_division_before e env Hdiv)).
Qed.

Lemma unbound_identifier_fails_witness :
  evaluate (bin_op "+" (bin_op "/" (identifier "x") (number "2"))
                       (bin_op "/" (identifier "y") (number "0"))) sample_table
  = Raise (NameError "Undefined variable: y")
  /\ process_expression "x / 2 + y / 0" sample_table
     = Some (Evaluation_error (NameError "Undefined variable: y"), sample_table)
  /\ process_expression "z = x / 2 + y / 0" sample_table
     = Some (Evaluation_error (NameError "Undefined variable: y"), sample_table).
Proof.
  destruct (unbound_identifier_fails "x / 2 + y / 0"
              (Grammar.Binary Grammar.Add
                 (Grammar.Binary Grammar.Div (Grammar.Name "x") (Grammar.Literal "2"))
                 (Grammar.Binary Grammar.Div (Grammar.Name "y") (Grammar.Literal "0")))
              sample_table "y")
    as (err & Hev & Hline & Hassign & Herr & _).
  - exact (Grammar.D_additive Grammar.Add
             [(IDENTIFIER, "x"); (OPERATOR, "/"); (NUMBER, "2")] _ _ _ eq_refl
             (Grammar.D_term _ _
                (Grammar.D_multiplicative Grammar.Div [(IDENTIFIER, "x")] _ _ _ eq_refl
                   (Grammar.D_factor _ _ (Grammar.D_identifier "x"))
                   (Grammar.D_number "2" eq_refl)))
             (Grammar.D_multiplicative Grammar.Div [(IDENTIFIER, "y")] _ _ _ eq_refl
                (Grammar.D_factor _ _ (Grammar.D_identifier "y"))
                (Grammar.D_number "0" eq_refl))).
  - reflexivity.
  - vm_compute in Herr. subst err.
    split; [exact Hev|]. split; [exact Hline|].
    exact (Hassign "z = x / 2 + y / 0" eq_refl eq_refl).
Defined.

(** C8 (as stated) fails.  In ["1 / 0 + y"] the identifier [y] has no
    value, and the failure is the division by zero, which names no
    identifier. *)
Lemma division_precedes_unbound :
  Grammar.derives Grammar.Expression (Tokenizer.tokenize "1 / 0 + y")
    (Grammar.Binary Grammar.Add
       (Grammar.Binary Grammar.Div (Grammar.Literal "1") (Grammar.Literal "0"))
       (Grammar.Name "y"))
  /\ SymbolTable.get ∅ "y" = VNone
  /\ process_expression "1 / 0 + y" ∅ = Some (Evaluation_error division_by_zero, ∅).
Proof.
  split; [|repeat split].
  exact (Grammar.D_additive Grammar.Add
           [(NUMBER, "1"); (OPERATOR, "/"); (NUMBER, "0")] _ _ _ eq_refl
           (Grammar.D_term _ _
              (Grammar.D_multiplicative Grammar.Div [(NUMBER, "1")] _ _ _ eq_refl
                 (Grammar.D_factor _ _ (Grammar.D_number "1" eq_refl))
                 (Grammar.D_number "0" eq_refl)))
           (Grammar.D_factor _ _ (Grammar.D_identifier "y"))).
Qed.

(** C9.  The left-hand side of an assignment is not validated: for every
    line that holds an [=], the stripped text left of the first [=],
    whatever it is, becomes a key of the symbol table when the right-hand
    side evaluates, and the line is reported as an assignment. *)
Theorem left_hand_side_unchecked line env v :
  Str.contains "=" line = true ->
  process_expression (expression_of line) env = Some (Result v, env) ->
  process_expression line env
  = Some (Assigned (Str.strip (Str.before "=" line)) v,
          <[ Str.strip (Str.before "=" line) := v ]> env).
Proof. apply process_expression_assigns. Qed.

Lemma left_hand_side_unchecked_witness :
  process_expression "2 = 3" sample_table
    = Some (Assigned "2" (VFloat 3), <[ "2" := VFloat 3 ]> sample_table)
  /\ process_expression "= 3" sample_table
    = Some (Assigned "" (VFloat 3), <[ "" := VFloat 3 ]> sample_table).
Proof.
  split.
  - apply (left_hand_side_unchecked "2 = 3" sample_table (VFloat 3)); reflexivity.
  - apply (left_hand_side_unchecked "= 3" sample_table (VFloat 3)); reflexivity.
Defined.

(** C10.  [set] always succeeds and leaves every other name alone: after
    [set(name, value)], [get(name)] returns [value], and for every other
    name [get] returns what it returned before. *)
Theorem set_get_frame (env : SymbolTable.t) (name : string) (v : value) :
  SymbolTable.get (SymbolTable.set env name v) name = v
  /\ forall n, n <> name ->
       SymbolTable.get (SymbolTable.set env name v) n = SymbolTable.get env n.
Proof.
  unfold SymbolTable.get, SymbolTable.set. split.
  - now rewrite lookup_insert_eq.
  - intros n Hn. now rewrite lookup_insert_ne.
Qed.

(** * Further properties of the program *)

(** ** The string methods, as the driver uses them *)

Lemma lstrip_head s :
  match Str.lstrip s with
  | EmptyString => True
  | String c _ => Chars.is_space c = false
  end.
Proof.
  induction s as [|c s IH]; simpl; [exact I|].
  destruct (Chars.is_space c) eqn:E; [exact IH|exact E].
Qed.

Lemma rstrip_head c s :
  Chars.is_space c = false -> exists r, Str.rstrip (String c s) = String c r.
Proof.
  intros H. simpl. destruct (Str.rstrip s); rewrite ?H; eauto.
Qed.

Lemma rstrip_rstrip s : Str.rstrip (Str.rstrip s) = Str.rstrip s.
Proof.
  induction s as [|c s IH]; simpl; [reflexivity|].
  destruct (Str.rstrip s) as [|d t] eqn:E.
  - destruct (Chars.is_space c) eqn:Hc; simpl; [reflexivity|now rewrite Hc].
  - change (Str.rstrip (String c (String d t))) with
      (match Str.rstrip (String d t) with
       | EmptyString => if Chars.is_space c then EmptyString else String c EmptyString
       | String _ _ as t' => String c t'
       end).
    now rewrite IH.
Qed.

Lemma strip_strip s : Str.strip (Str.strip s) = Str.strip s.
Proof.
  unfold Str.strip. pose proof (lstrip_head s) as H.
  destruct (Str.lstrip s) as [|c r]; [reflexivity|].
  destruct (rstrip_head c r H) as [r' E]. rewrite E.
  cbn [Str.lstrip]. rewrite H, <- E. apply rstrip_rstrip.
Qed.

(** ** The driver *)

(** On the tokenizer's tokens, the two branches of the driver parse and
    evaluate alike: the assignment branch differs only in what it does
    with a result. *)
Lemma process_assignment_as_plain variable expression env :
  process_assignment variable expression env
  = match process_plain (Tokenizer.tokenize expression) env with
    | Some (Result v, _) => Some (Assigned variable v, SymbolTable.set env variable v)
    | other => other
    end.
Proof.
  unfold process_assignment, process_plain, Parser.parse_to_file, Parser.bind.
  pose proof (Invariants.run_parse_expression_sound _
                (Invariants.tokenize_ok expression)) as Hs.
  destruct (Parser.run_parse_expression _) as [[[tree|e] parser]|]; try reflexivity.
  destruct Hs as (_ & _ & Htree).
  destruct (Parser.error_is_true parser) eqn:He; rewrite ?He.
  - now destruct tree.
  - specialize (Htree eq_refl).
    destruct tree; try discriminate Htree; now destruct (evaluate _ env).
Qed.

(** X1.  An assignment line behaves as its right-hand side does when taken
    as a line of its own, on the table as it is before the line: a result
    is stored under the variable name and reported as an assignment, and
    any failure of the right-hand side is the failure of the line. *)
Theorem assignment_follows_right_hand_side line env :
  Str.contains "=" line = true ->
  process_expression line env
  = match process_expression (expression_of line) env with
    | Some (Result v, _) =>
        Some (Assigned (variable_of line) v, SymbolTable.set env (variable_of line) v)
    | other => other
    end.
Proof.
  intros Hc. unfold process_expression at 1.
  rewrite Hc, (assignment_parts_spec _ Hc), process_assignment_as_plain.
  unfold process_expression, Tokenizer.tokenize_to_file.
  now rewrite expression_of_plain.
Qed.

Lemma assignment_follows_right_hand_side_witness :
  process_expression "x = x + 1" sample_table
  = match process_expression (expression_of "x = x + 1") sample_table with
    | Some (Result v, _) =>
        Some (Assigned (variable_of "x = x + 1") v,
              SymbolTable.set sample_table (variable_of "x = x + 1") v)
    | other => other
    end.
Proof. apply (assignment_follows_right_hand_side "x = x + 1" sample_table). reflexivity. Defined.

(** X2.  Every line has an outcome, and the outcome is a number (as a
    result or assigned), a parsing error with a text, an evaluation error
    that is a [NameError] or a [ZeroDivisionError], or the uncaught
    [TypeError] of subscripting [None]; nothing else leaves
    [process_expression], and [None] is never a result nor stored. *)
Theorem every_line_has_a_regular_outcome line env :
  exists o env', process_expression line env = Some (o, env') /\ regular o = true.
Proof.
  destruct (process_expression_total line env) as (o & env' & H).
  exists o, env'. split; [exact H|]. eapply process_expression_regular, H.
Qed.

(** X3.  A line changes the symbol table in one way only: an assignment
    that succeeds stores its value under the stripped text left of the
    first [=].  That key holds no [=] and no whitespace at either end, and
    every other key keeps its value; a line without [=] leaves the table
    as it is. *)
Theorem table_changes_at_one_key line env o env' :
  process_expression line env = Some (o, env') ->
  (env' = env
   \/ exists v, o = Assigned (variable_of line) v /\ env' = <[ variable_of line := v ]> env)
  /\ Str.strip (variable_of line) = variable_of line
  /\ Str.contains "=" (variable_of line) = false
  /\ (forall name, name <> variable_of line -> SymbolTable.get env' name = SymbolTable.get env name)
  /\ (Str.contains "=" line = false -> env' = env).
Proof.
  intros H.
  assert (Hchange : (env' = env
            \/ exists v, o = Assigned (variable_of line) v
                         /\ env' = <[ variable_of line := v ]> env)
          /\ (Str.contains "=" line = false -> env' = env)).
  { revert H. unfold process_expression.
    destruct (Str.contains "=" line) eqn:Hc.
    - rewrite (assignment_parts_spec _ Hc). unfold process_assignment.
      destruct (Parser.run_parse_expression _) as [[[tree|e] parser]|]; [| |discriminate].
      + destruct tree, (Parser.error_is_true parser);
          try (intros [= <- <-]; split; [now left|discriminate]);
          (destruct (evaluate _ env); intros [= <- <-];
           (split; [|discriminate]); [right; eauto|now left]).
      + intros [= <- <-]. split; [now left|discriminate].
    - intros H. apply process_plain_unchanged in H. split; [now left|trivial]. }
  destruct Hchange as [Hchange Hplain].
  split; [exact Hchange|]. split; [apply strip_strip|].
  split; [apply contains_rstrip, contains_lstrip, contains_before|].
  split; [|exact Hplain].
  intros name Hne. destruct Hchange as [->|(v & _ & ->)]; [reflexivity|].
  unfold SymbolTable.get. now rewrite lookup_insert_ne.
Qed.

Lemma table_changes_at_one_key_witness :
  (<[ "rate" := VFloat 2.5 ]> sample_table = sample_table
   \/ exists v, Assigned "rate" (VFloat 2.5) = Assigned (variable_of "  rate  = 2.5 = x") v
                /\ <[ "rate" := VFloat 2.5 ]> sample_table
                   = <[ variable_of "  rate  = 2.5 = x" := v ]> sample_table)
  /\ Str.strip (variable_of "  rate  = 2.5 = x") = variable_of "  rate  = 2.5 = x"
  /\ Str.contains "=" (variable_of "  rate  = 2.5 = x") = false
  /\ (forall name, name <> variable_of "  rate  = 2.5 = x" ->
        SymbolTable.get (<[ "rate" := VFloat 2.5 ]> sample_table) name
        = SymbolTable.get sample_table name)
  /\ (Str.contains "=" "  rate  = 2.5 = x" = false ->
      <[ "rate" := VFloat 2.5 ]> sample_table = sample_table).
Proof.
  apply (table_changes_at_one_key "  rate  = 2.5 = x" sample_table
           (Assigned "rate" (VFloat 2.5)) (<[ "rate" := VFloat 2.5 ]> sample_table)).
  vm_compute. reflexivity.
Defined.

(** ** The evaluation engine *)

(** X4.  What [evaluate] returns or raises depends on the symbol table
    only through the identifiers that occur in the tree: on two tables
    that give those the same values it does the same.  So storing under a
    name the tree does not mention changes nothing for it. *)
Theorem evaluate_reads_its_identifiers tree env1 env2 :
  (forall name, mentions name tree = true ->
                SymbolTable.get env1 name = SymbolTable.get env2 name) ->
  evaluate tree env1 = evaluate tree env2
  /\ forall other v, mentions other tree = false ->
       evaluate tree (SymbolTable.set env1 other v) = evaluate tree env2.
Proof.
  assert (Hframe : forall t e1 e2,
             (forall name, mentions name t = true ->
                           SymbolTable.get e1 name = SymbolTable.get e2 name) ->
             evaluate t e1 = evaluate t e2).
  { induction t as [text|x|op lhs IHl rhs IHr|]; intros e1 e2 H; cbn [evaluate];
      try reflexivity.
    - rewrite (H x); [reflexivity|]. cbn [mentions]. apply String.eqb_refl.
    - rewrite (IHl e1 e2), (IHr e1 e2); [reflexivity| |];
        intros name Hn; apply H; cbn [mentions]; rewrite Hn; auto using orb_true_r. }
  intros H. split; [now apply Hframe|].
  intros other v Hother. apply Hframe. intros name Hn.
  rewrite <- (H name Hn). unfold SymbolTable.get, SymbolTable.set.
  rewrite lookup_insert_ne; [reflexivity|]. intros ->. congruence.
Qed.

Lemma evaluate_reads_its_identifiers_witness :
  evaluate (bin_op "+" (identifier "x") (number "1")) sample_table
  = evaluate (bin_op "+" (identifier "x") (number "1")) (<[ "y" := VFloat 7 ]> sample_table)
  /\ forall other v,
       mentions other (bin_op "+" (identifier "x") (number "1")) = false ->
       evaluate (bin_op "+" (identifier "x") (number "1")) (SymbolTable.set sample_table other v)
       = evaluate (bin_op "+" (identifier "x") (number "1")) (<[ "y" := VFloat 7 ]> sample_table).
Proof.
  apply (evaluate_reads_its_identifiers (bin_op "+" (identifier "x") (number "1"))
           sample_table (<[ "y" := VFloat 7 ]> sample_table)).
  intros name H. cbn [mentions] in H. rewrite orb_false_r in H.
  apply String.eqb_eq in H as ->. reflexivity.
Defined.

(** X5.  On a tree without [None] in it, with operators among the four and
    numbers that are literals, [evaluate] returns a [float] or raises a
    [NameError] or a [ZeroDivisionError]: it never returns [None] and
    raises no [TypeError] or [ValueError].  It raises the [NameError] only
    if the tree mentions a name without a value, and the
    [ZeroDivisionError] only if the tree holds a division. *)
Theorem evaluate_fails_in_two_ways tree env :
  tree_ok tree = true ->
  (exists x, evaluate tree env = Return (VFloat x))
  \/ (exists name, mentions name tree = true /\ SymbolTable.get env name = VNone
                   /\ evaluate tree env = Raise (NameError ("Undefined variable: " +:+ name)))
  \/ (mentions_division tree = true /\ evaluate tree env = Raise division_by_zero).
Proof.
  induction tree as [text|x|op lhs IHl rhs IHr|]; cbn [tree_ok evaluate mentions].
  - intros H. destruct (of_str_literal text H) as [v ->]. eauto.
  - intros _. destruct (SymbolTable.get env x) eqn:E; [eauto|].
    right. left. exists x. rewrite String.eqb_refl. auto.
  - intros H. apply andb_true_iff in H as [H Hr]. apply andb_true_iff in H as [Hop Hl].
    cbn [mentions_division].
    destruct (IHl Hl) as [[a ->]|[(name & Hm & Hg & ->)|(Hd & ->)]].
    2:{ right. left. exists name. rewrite Hm. auto. }
    2:{ right. right. rewrite Hd, orb_true_r. auto. }
    destruct (IHr Hr) as [[b ->]|[(name & Hm & Hg & ->)|(Hd & ->)]].
    2:{ right. left. exists name. rewrite Hm, orb_true_r. auto. }
    2:{ right. right. rewrite Hd, !orb_true_r. auto. }
    unfold is_arith in Hop.
    destruct (String.eqb op "+"); [cbn [arith]; eauto|].
    destruct (String.eqb op "-"); [cbn [arith]; eauto|].
    destruct (String.eqb op "*"); [cbn [arith]; eauto|].
    destruct (String.eqb op "/") eqn:Hdiv; [|discriminate].
    cbn [arith]. unfold float_div. destruct (Float.is_zero b); [|eauto].
    right. right. auto.
  - discriminate.
Qed.

Lemma evaluate_fails_in_two_ways_witness :
  (exists x, evaluate (bin_op "/" (identifier "x") (number "0")) sample_table
             = Return (VFloat x))
  \/ (exists name,
         mentions name (bin_op "/" (identifier "x") (number "0")) = true
         /\ SymbolTable.get sample_table name = VNone
         /\ evaluate (bin_op "/" (identifier "x") (number "0")) sample_table
            = Raise (NameError ("Undefined variable: " +:+ name)))
  \/ (mentions_division (bin_op "/" (identifier "x") (number "0")) = true
      /\ evaluate (bin_op "/" (identifier "x") (number "0")) sample_table
         = Raise division_by_zero).
Proof.
  apply (evaluate_fails_in_two_ways (bin_op "/" (identifier "x") (number "0")) sample_table).
  reflexivity.
Defined.

(** ** The tokenizer *)

Lemma append_empty s : s +:+ EmptyString = s.
Proof. induction s as [|c s IH]; simpl; [reflexivity|now rewrite IH]. Qed.

Lemma match_number_none c s :
  Tokenizer.match_number (String c s) = None <-> Chars.is_digit c = false.
Proof.
  unfold Tokenizer.match_number. cbn [Str.span].
  destruct (Chars.is_digit c); [|tauto].
  destruct (Str.span Chars.is_digit s) as [a [|d r]]; [split; discriminate|].
  destruct (Ascii.eqb d "."); [|split; discriminate].
  destruct (Str.span Chars.is_digit r) as [[|f fr] r']; split; discriminate.
Qed.

(** What the pattern matched is matched again, as the same token, on the
    matched text alone. *)
Lemma match_token_exact s tok rest :
  Tokenizer.match_token s = Some (tok, rest) -> exact_token tok.
Proof.
  unfold exact_token, Tokenizer.match_token at 1.
  destruct (Tokenizer.match_number s) as [[text r]|] eqn:Hn.
  - intros [= <- <-]. cbn [snd]. unfold Tokenizer.match_token.
    pose proof (match_number_literal _ _ _ Hn) as Hlit. unfold Grammar.is_literal in Hlit.
    destruct (Tokenizer.match_number text) as [[t' [|c r']]|] eqn:Hn'; try discriminate.
    apply match_number_split in Hn' as [Ht _]. rewrite append_empty in Ht. now subst.
  - destruct s as [|c s]; [discriminate|].
    apply match_number_none in Hn.
    assert (Hone : forall k : token_type,
               Tokenizer.match_number (String c EmptyString) = None).
    { intros _. now apply match_number_none. }
    destruct (Chars.is_operator c) eqn:Ho.
    { intros [= <- <-]. cbn [snd]. unfold Tokenizer.match_token.
      now rewrite (Hone OPERATOR), Ho. }
    destruct (Chars.is_paren c) eqn:Hp.
    { intros [= <- <-]. cbn [snd]. unfold Tokenizer.match_token.
      now rewrite (Hone PAREN), Ho, Hp. }
    destruct (Chars.is_letter c) eqn:Hl.
    { pose proof (span_fst_all Chars.is_word s) as Hw.
      destruct (Str.span Chars.is_word s) as [w r]; cbn [fst] in Hw.
      intros [= <- <-]. cbn [snd]. unfold Tokenizer.match_token.
      rewrite (proj2 (match_number_none c w) Hn), Ho, Hp, Hl, Hw. reflexivity. }
    destruct (Chars.is_assign c) eqn:Ha; [|discriminate].
    intros [= <- <-]. cbn [snd]. unfold Tokenizer.match_token.
    now rewrite (Hone ASSIGN), Ho, Hp, Hl, Ha.
Qed.

Lemma finditer_exact n s : Forall exact_token (Tokenizer.finditer n s).
Proof.
  revert s. induction n as [|n IH]; intros s; [constructor|].
  destruct s as [|c s]; [constructor|]. cbn [Tokenizer.finditer].
  destruct (Tokenizer.match_token (String c s)) as [[tok rest]|] eqn:Hm; [|apply IH].
  constructor; [eapply match_token_exact; eassumption|apply IH].
Qed.

Lemma is_assign_eq c : Chars.is_assign c = true -> c = "="%char.
Proof.
  destruct c as [[] [] [] [] [] [] [] []]; vm_compute; intros H;
    (reflexivity || discriminate H).
Qed.

(** An exact token has the kind its first character decides. *)
Lemma exact_token_kind tok :
  exact_token tok ->
  exists c r,
    snd tok = String c r
    /\ fst tok = (if Chars.is_digit c then NUMBER
                  else if Chars.is_operator c then OPERATOR
                  else if Chars.is_paren c then PAREN
                  else if Chars.is_letter c then IDENTIFIER
                  else ASSIGN)
    /\ (Chars.is_digit c = false -> Chars.is_letter c = false -> r = EmptyString)
    /\ Chars.in_pattern c = true.
Proof.
  unfold exact_token, Tokenizer.match_token.
  destruct (snd tok) as [|c r] eqn:Htext.
  { cbn. discriminate. }
  intros Hm. exists c, r. split; [reflexivity|].
  assert (Hin : forall b, b = true -> (b = Chars.is_digit c \/ b = Chars.is_operator c
                 \/ b = Chars.is_paren c \/ b = Chars.is_letter c \/ b = Chars.is_assign c) ->
               Chars.in_pattern c = true).
  { intros b -> Hb. unfold Chars.in_pattern, Chars.is_word.
    destruct Hb as [<-|[<-|[<-|[<-|<-]]]]; rewrite ?orb_true_r; reflexivity. }
  revert Hm.
  destruct (Tokenizer.match_number (String c r)) as [[text r0]|] eqn:Hn.
  - assert (Hd : Chars.is_digit c = true).
    { destruct (Chars.is_digit c) eqn:E; [reflexivity|].
      apply (proj2 (match_number_none c r)) in E. congruence. }
    intros [= <- _]. rewrite Hd. repeat split; [congruence|eauto].
  - apply match_number_none in Hn. rewrite Hn.
    destruct (Chars.is_operator c) eqn:Ho.
    { intros H. injection H as <- Hr. repeat split; eauto 6. }
    destruct (Chars.is_paren c) eqn:Hp.
    { intros H. injection H as <- Hr. repeat split; eauto 6. }
    destruct (Chars.is_letter c) eqn:Hl.
    { destruct (Str.span Chars.is_word r) as [w r']. intros [= <- _].
      repeat split; [congruence|eauto 6]. }
    destruct (Chars.is_assign c) eqn:Ha; [|discriminate].
    intros H. injection H as <- Hr. repeat split; eauto 8.
Qed.

(** X6.  Every token of [tokenize] is an exact match: the token pattern,
    run on the token's value alone, matches all of it as that token.  So
    the value is not empty, the kind is decided by the first character of
    the value (a digit: [NUMBER]; one of [+-*/]: [OPERATOR]; a
    parenthesis: [PAREN]; a letter: [IDENTIFIER]; else [ASSIGN]), and a
    token that is not a [NUMBER] or an [IDENTIFIER] is one character. *)
Theorem tokens_are_exact_matches line tok :
  In tok (Tokenizer.tokenize line) ->
  Tokenizer.match_token (snd tok) = Some (tok, EmptyString)
  /\ exists c r,
       snd tok = String c r
       /\ fst tok = (if Chars.is_digit c then NUMBER
                     else if Chars.is_operator c then OPERATOR
                     else if Chars.is_paren c then PAREN
                     else if Chars.is_letter c then IDENTIFIER
                     else ASSIGN)
       /\ (Chars.is_digit c = false -> Chars.is_letter c = false -> r = EmptyString)
       /\ Chars.in_pattern c = true.
Proof.
  intros H.
  assert (He : exact_token tok).
  { pose proof (finditer_exact (String.length line) line) as Hall.
    rewrite List.Forall_forall in Hall. now apply Hall. }
  split; [exact He|now apply exact_token_kind].
Qed.

Lemma tokens_are_exact_matches_witness :
  Tokenizer.match_token (snd (IDENTIFIER, "rate_2")) = Some ((IDENTIFIER, "rate_2"), EmptyString)
  /\ exists c r,
       snd (IDENTIFIER, "rate_2") = String c r
       /\ fst (IDENTIFIER, "rate_2")
          = (if Chars.is_digit c then NUMBER
             else if Chars.is_operator c then OPERATOR
             else if Chars.is_paren c then PAREN
             else if Chars.is_letter c then IDENTIFIER
             else ASSIGN)
       /\ (Chars.is_digit c = false -> Chars.is_letter c = false -> r = EmptyString)
       /\ Chars.in_pattern c = true.
Proof.
  apply (tokens_are_exact_matches "3.5*rate_2 " (IDENTIFIER, "rate_2")).
  vm_compute. auto.
Defined.

Lemma finditer_empty n : Tokenizer.finditer n EmptyString = [].
Proof. now destruct n. Qed.

Lemma tokenize_exact_token tok :
  exact_token tok -> Tokenizer.tokenize (snd tok) = [tok].
Proof.
  unfold exact_token, Tokenizer.tokenize. intros H.
  destruct (snd tok) as [|c r]; [discriminate H|].
  cbn [String.length Tokenizer.finditer]. rewrite H. now rewrite finditer_empty.
Qed.

Lemma tokenize_spaced toks :
  Forall exact_token toks -> Tokenizer.tokenize (spaced toks) = toks.
Proof.
  induction 1 as [|tok toks Htok _ IH]; [reflexivity|].
  cbn [spaced]. unfold Tokenizer.tokenize at 1.
  rewrite (finditer_skips " " (spaced toks) (String.length (snd tok)) eq_refl);
    [|reflexivity|reflexivity].
  fold (Tokenizer.tokenize (snd tok)). now rewrite (tokenize_exact_token tok Htok), IH.
Qed.

(** X7.  Tokenizing is stable: writing the values of the tokens of a text
    one after the other, a space after each, and tokenizing that gives the
    same tokens again. *)
Theorem tokenize_spaced_tokens line :
  Tokenizer.tokenize (spaced (Tokenizer.tokenize line)) = Tokenizer.tokenize line.
Proof. apply tokenize_spaced, finditer_exact. Qed.

(** *** Where the characters of the tokens come from *)

Lemma list_of_append a b :
  list_ascii_of_string (a +:+ b) = list_ascii_of_string a ++ list_ascii_of_string b.
Proof. induction a as [|c a IH]; simpl; [reflexivity|now rewrite IH]. Qed.

Lemma finditer_sublist n s :
  sublist (values (Tokenizer.finditer n s)) (list_ascii_of_string s)
  /\ length (Tokenizer.finditer n s) <= String.length s.
Proof.
  revert s. induction n as [|n IH]; intros s.
  { split; [apply sublist_nil_l|simpl; lia]. }
  destruct s as [|c s]; [split; [constructor|simpl; lia]|].
  cbn [Tokenizer.finditer].
  destruct (Tokenizer.match_token (String c s)) as [[tok rest]|] eqn:Hm.
  - pose proof (match_token_shorter _ _ _ Hm) as Hlen.
    apply match_token_split in Hm as [Hs _]. rewrite Hs, list_of_append.
    destruct (IH rest) as [Hsub Hn]. split.
    + cbn [values]. now apply sublist_app.
    + rewrite <- Hs. simpl in *. lia.
  - destruct (IH s) as [Hsub Hn]. split.
    + cbn [list_ascii_of_string]. now apply sublist_cons.
    + simpl. lia.
Qed.

(** X8.  The tokenizer invents nothing and reorders nothing: the
    characters of the token values, in the order of the tokens, are
    characters of the text in the order of the text; each token has at
    least one, so there are at most as many tokens as the text has
    characters. *)
Theorem token_values_come_from_the_text line :
  sublist (values (Tokenizer.tokenize line)) (list_ascii_of_string line)
  /\ length (Tokenizer.tokenize line) <= String.length line
  /\ Forall (fun tok => snd tok <> EmptyString) (Tokenizer.tokenize line).
Proof.
  destruct (finditer_sublist (String.length line) line) as [Hs Hn].
  split; [exact Hs|]. split; [exact Hn|].
  eapply Forall_impl; [apply (finditer_exact (String.length line) line)|].
  intros tok Htok Hempty. unfold exact_token in Htok. rewrite Hempty in Htok.
  discriminate Htok.
Qed.

(** *** The [=] of a line *)

Lemma in_finditer_contains n s tok c :
  In tok (Tokenizer.finditer n s) ->
  Str.contains c (snd tok) = true -> Str.contains c s = true.
Proof.
  revert s. induction n as [|n IH]; intros s; [contradiction|].
  destruct s as [|d s]; [contradiction|]. cbn [Tokenizer.finditer].
  destruct (Tokenizer.match_token (String d s)) as [[tok' rest]|] eqn:Hm.
  - apply match_token_split in Hm as [Hs _]. rewrite Hs, contains_append.
    intros [->|Hin] Hc; [now rewrite Hc|].
    rewrite (IH rest Hin Hc). apply orb_true_r.
  - intros Hin Hc. cbn [Str.contains]. rewrite (IH s Hin Hc). apply orb_true_r.
Qed.

Lemma assign_token_text tok :
  exact_token tok -> fst tok = ASSIGN -> tok = (ASSIGN, "=").
Proof.
  intros He Hk. destruct (exact_token_kind tok He) as (c & r & Ht & Hkind & Hr & _).
  rewrite Hk in Hkind. destruct tok as [k text]. cbn [fst snd] in *. subst k text.
  destruct (Chars.is_digit c) eqn:Hd; [discriminate|].
  destruct (Chars.is_operator c) eqn:Ho; [discriminate|].
  destruct (Chars.is_paren c) eqn:Hp; [discriminate|].
  destruct (Chars.is_letter c) eqn:Hl; [discriminate|].
  rewrite (Hr eq_refl eq_refl).
  unfold exact_token, Tokenizer.match_token in He. cbn [snd] in He.
  rewrite (proj2 (match_number_none c r) Hd), Ho, Hp, Hl in He.
  destruct (Chars.is_assign c) eqn:Ha; [|discriminate He].
  now rewrite (is_assign_eq c Ha).
Qed.

(** X9.  A text holds an [=] exactly when its tokens hold an [ASSIGN]
    token, so the driver's test ['=' in input_string] is a test on the
    tokens; and whatever the line, the tokens the driver hands to the
    parser hold no [ASSIGN] token. *)
Theorem assign_tokens_stay_with_the_driver line :
  (Str.contains "=" line = true <-> In ASSIGN (map fst (Tokenizer.tokenize line)))
  /\ ~ In ASSIGN (map fst (parser_input line))
  /\ forall env,
       process_expression line env
       = if Str.contains "=" line
         then process_assignment (variable_of line) (expression_of line) env
         else process_plain (parser_input line) env.
Proof.
  assert (Hiff : forall s,
             Str.contains "=" s = true <-> In ASSIGN (map fst (Tokenizer.tokenize s))).
  { intros s. split.
    - intros H. apply in_map_iff. exists (ASSIGN, "="). split; [reflexivity|].
      now apply finditer_assign.
    - intros H. apply in_map_iff in H as (tok & Hk & Hin).
      pose proof (finditer_exact (String.length s) s) as Hall.
      rewrite List.Forall_forall in Hall.
      rewrite (assign_token_text tok (Hall tok Hin) Hk) in Hin.
      now apply (in_finditer_contains _ _ _ "="%char Hin). }
  split; [apply Hiff|]. split.
  - unfold parser_input, Tokenizer.tokenize_to_file.
    destruct (Str.contains "=" line) eqn:Hc; intros H; apply Hiff in H.
    + now rewrite expression_of_plain in H.
    + congruence.
  - intros env. unfold process_expression, parser_input.
    destruct (Str.contains "=" line) eqn:Hc; [|reflexivity].
    now rewrite (assignment_parts_spec _ Hc).
Qed.

(** ** The parser *)

Module ParserBounds.
Import Parser ParserRuns.

Lemma within_bind (m : call) (k : node -> call) self0 self :
  tokens self = tokens self0 ->
  within self (m self) ->
  (forall n self', tokens self' = tokens self ->
                   pos self' <= length (tokens self') -> within self' (k n self')) ->
  within self0 (bind m k self).
Proof.
  intros Ht0 Hm Hk. unfold bind.
  destruct (m self) as [[[n|e] self1]|]; [| |exact I].
  - destruct Hm as [Ht Hp]. specialize (Hk n self1 Ht Hp).
    destruct (k n self1) as [[r self2]|]; [|exact I].
    destruct Hk as [Ht' Hp']. split; [congruence|exact Hp'].
  - destruct Hm as [Ht Hp]. split; [congruence|exact Hp].
Qed.

Lemma within_catch (m : call) self :
  within self (m self) -> within self (catch_syntax_error m self).
Proof.
  unfold catch_syntax_error.
  destruct (m self) as [[[n|e] self1]|]; trivial. now destruct e.
Qed.

Lemma peek_in_bounds self tok :
  peek self = Some tok -> pos (consume self) <= length (tokens (consume self)).
Proof. unfold peek. intros H. apply lookup_lt_Some in H. simpl. lia. Qed.

(** [consume] is only ever called after [peek] returned a token: the
    cursor never passes the end of the tokens. *)
Lemma in_bounds n :
  (forall self, pos self <= length (tokens self) -> within self (parse_expression n self))
  /\ (forall self t, pos self <= length (tokens self) -> within self (expression_loop n t self))
  /\ (forall self, pos self <= length (tokens self) -> within self (parse_term n self))
  /\ (forall self t, pos self <= length (tokens self) -> within self (term_loop n t self))
  /\ (forall self, pos self <= length (tokens self) -> within self (parse_factor n self)).
Proof.
  induction n as [|n (IHe & IHel & IHt & IHtl & IHf)]; [repeat split; intros; exact I|].
  repeat split.
  - intros self Hp. cbn [parse_expression]. apply within_catch.
    apply within_bind; [reflexivity|now apply IHt|]. intros t self' _ Hp'. now apply IHel.
  - intros self t Hp. cbn [expression_loop].
    destruct (peek self) as [tok|] eqn:Hpeek; [|now split].
    destruct (Str.substring_of (snd tok) "+-"); [|now split].
    apply within_bind; [reflexivity|apply IHt; eapply peek_in_bounds; eassumption|].
    intros r self' _ Hp'. now apply IHel.
  - intros self Hp. cbn [parse_term].
    apply within_bind; [reflexivity|now apply IHf|]. intros t self' _ Hp'. now apply IHtl.
  - intros self t Hp. cbn [term_loop].
    destruct (peek self) as [tok|] eqn:Hpeek; [|now split].
    destruct (Str.substring_of (snd tok) "*/"); [|now split].
    apply within_bind; [reflexivity|apply IHf; eapply peek_in_bounds; eassumption|].
    intros r self' _ Hp'. now apply IHtl.
  - intros self Hp. cbn [parse_factor].
    destruct (peek self) as [tok|] eqn:Hpeek; [|now split].
    pose proof (peek_in_bounds _ _ Hpeek) as Hc.
    assert (Hother : within self
      (if String.eqb (snd tok) "(" then
         bind (parse_expression n)
           (fun expr self' =>
              match peek self' with
              | Some tok' =>
                  if String.eqb (snd tok') ")" then Some (Return expr, consume self')
                  else Some (Raise (SyntaxError "Unmatched parenthesis"), self')
              | None => Some (Raise (SyntaxError "Unmatched parenthesis"), self')
              end) (consume self)
       else Some (Raise (SyntaxError ("Unexpected token: " +:+ Repr.tuple tok)), self))).
    { destruct (String.eqb (snd tok) "("); [|now split].
      apply within_bind; [reflexivity|now apply IHe|].
      intros expr self' _ Hp'.
      destruct (peek self') as [tok'|] eqn:Hpeek'; [|now split].
      destruct (String.eqb (snd tok') ")"); [|now split].
      split; [reflexivity|]. eapply peek_in_bounds; eassumption. }
    destruct (fst tok); try exact Hother; (split; [reflexivity|exact Hc]).
Qed.

End ParserBounds.

(** X10.  [parse_expression] terminates on every token list, whatever it
    holds: with [k] tokens, [3k + 3] nested calls and loop rounds are
    enough, and more change nothing.  It leaves the tokens as they are and
    the cursor somewhere from the start to the end of them. *)
Theorem parse_expression_terminates toks :
  exists r self',
    Parser.run_parse_expression (Parser.init toks) = Some (r, self')
    /\ (forall fuel, 3 * length toks + 3 <= fuel ->
                     Parser.parse_expression fuel (Parser.init toks) = Some (r, self'))
    /\ Parser.tokens self' = toks
    /\ Parser.pos self' <= length toks.
Proof.
  destruct (ParserFacts.run_parse_expression_advances (Parser.init toks))
    as (r & self' & Hrun & Htok & _).
  exists r, self'. split; [exact Hrun|].
  assert (Hfuel : Parser.enough (Parser.ahead (Parser.init toks)) = 3 * length toks + 3).
  { unfold Parser.enough, Parser.ahead. simpl. lia. }
  split; [|split; [exact Htok|]].
  - intros fuel Hle. unfold Parser.run_parse_expression in Hrun. rewrite Hfuel in Hrun.
    destruct (ParserFacts.fuel_mono _ _ Hle) as (He & _). now apply He.
  - destruct (ParserBounds.in_bounds (Parser.enough (Parser.ahead (Parser.init toks))))
      as (He & _).
    specialize (He (Parser.init toks)). unfold Parser.run_parse_expression in Hrun.
    rewrite Hrun in He. destruct He as [Ht Hp]; [simpl; lia|].
    simpl in Htok. now rewrite <- Htok.
Qed.

Lemma sits_prefix toks ts : sits toks 0 ts -> exists suf, toks = ts ++ suf.
Proof.
  assert (H : forall i, sits toks i ts -> take (length ts) (drop i toks) = ts).
  { induction ts as [|x ts IH]; intros i; [now rewrite take_0|].
    intros [Hx Hs]. rewrite (drop_S _ _ _ Hx). simpl. now rewrite (IH (S i) Hs). }
  intros Hs. specialize (H 0 Hs). rewrite drop_0 in H.
  exists (drop (length ts) toks). now rewrite <- H at 1; rewrite take_drop.
Qed.

Lemma lookup_after (ts suf : list token) :
  (ts ++ suf) !! length ts = head suf.
Proof.
  destruct suf as [|tok suf]; simpl.
  - apply lookup_ge_None. rewrite app_nil_r. lia.
  - now apply list_lookup_middle.
Qed.

(** X11.  The parser reads the longest expression the tokens start with
    and ignores what follows: if the tokens are an expression of the
    grammar followed by tokens of which the first is no operator,
    [parse_expression] returns the tree of that expression, with the
    cursor after it and no error recorded; and a line without [=] whose
    tokens are such is evaluated as that expression, whatever follows. *)
Theorem trailing_tokens_are_ignored ts suf e :
  Grammar.derives Grammar.Expression ts e ->
  no_operator_next suf ->
  Parser.run_parse_expression (Parser.init (ts ++ suf))
  = Some (Return (Grammar.tree e), Parser.mk (ts ++ suf) (length ts) None)
  /\ forall line env,
       Tokenizer.tokenize line = ts ++ suf ->
       Str.contains "=" line = false ->
       process_expression line env
       = Some (match evaluate (Grammar.tree e) env with
               | Return v => Result v
               | Raise err => Evaluation_error err
               end, env).
Proof.
  intros Hd Hsuf.
  assert (Hrun : Parser.run_parse_expression (Parser.init (ts ++ suf))
                 = Some (Return (Grammar.tree e), Parser.mk (ts ++ suf) (length ts) None)).
  { apply Completeness.finishes_run.
    apply (Completeness.parses_expression_runs ts e (Completeness.derives_parses _ _ _ Hd)
             (ts ++ suf) 0 None).
    - pose proof (Completeness.sits_whole (ts ++ suf) []) as Hs.
      now apply Completeness.sits_app in Hs as [Hs _].
    - unfold next_is_not. cbn [Nat.add]. rewrite lookup_after.
      destruct suf; [exact I|apply Hsuf].
    - unfold next_is_not. cbn [Nat.add]. rewrite lookup_after.
      destruct suf; [exact I|apply Hsuf]. }
  split; [exact Hrun|].
  intros line env Htok Hc.
  unfold process_expression, process_plain, Parser.parse_to_file, Parser.bind,
    Tokenizer.tokenize_to_file.
  rewrite Hc, Htok, Hrun. cbn. now destruct (evaluate (Grammar.tree e) env).
Qed.

Lemma trailing_tokens_are_ignored_witness :
  Parser.run_parse_expression
    (Parser.init ([(NUMBER, "2"); (OPERATOR, "*"); (NUMBER, "3")] ++ [(NUMBER, "4"); (PAREN, ")")]))
  = Some (Return (Grammar.tree
                    (Grammar.Binary Grammar.Mul (Grammar.Literal "2") (Grammar.Literal "3"))),
          Parser.mk ([(NUMBER, "2"); (OPERATOR, "*"); (NUMBER, "3")]
                     ++ [(NUMBER, "4"); (PAREN, ")")]) 3 None)
  /\ process_expression "2 * 3 4 )" sample_table = Some (Result (VFloat 6), sample_table).
Proof.
  destruct (trailing_tokens_are_ignored
              [(NUMBER, "2"); (OPERATOR, "*"); (NUMBER, "3")] [(NUMBER, "4"); (PAREN, ")")]
              (Grammar.Binary Grammar.Mul (Grammar.Literal "2") (Grammar.Literal "3")))
    as [Hrun Hline].
  - exact (Grammar.D_term _ _
             (Grammar.D_multiplicative Grammar.Mul [(NUMBER, "2")] _ _ _ eq_refl
                (Grammar.D_factor _ _ (Grammar.D_number "2" eq_refl))
                (Grammar.D_number "3" eq_refl))).
  - split; reflexivity.
  - split; [exact Hrun|].
    exact (Hline "2 * 3 4 )" sample_table eq_refl eq_refl).
Defined.

(** *** What the parser accepts *)

Module ParserSoundness.
Import Parser ParserRuns Grammar.

Lemma prefix_inv t s :
  String.prefix t s = true ->
  match t, s with
  | EmptyString, _ => True
  | String _ _, EmptyString => False
  | String x t', String y s' => x = y /\ String.prefix t' s' = true
  end.
Proof.
  destruct t as [|x t], s as [|y s]; simpl; try easy.
  destruct (ascii_dec x y); [auto|discriminate].
Qed.

Lemma prefix_empty t : String.prefix t EmptyString = true -> t = EmptyString.
Proof. intros H. apply prefix_inv in H. now destruct t. Qed.

Lemma substring_of_two t a b :
  Str.substring_of t (String a (String b EmptyString)) = true ->
  t = EmptyString \/ t = String a EmptyString \/ t = String b EmptyString
  \/ t = String a (String b EmptyString).
Proof.
  cbn [Str.substring_of]. rewrite !orb_true_iff.
  intros [H|[H|[H|H]]]; [| |apply prefix_empty in H; auto|discriminate].
  - apply prefix_inv in H. destruct t as [|x t]; [auto|]. destruct H as [-> H].
    apply prefix_inv in H. destruct t as [|y t]; [auto|]. destruct H as [-> H].
    apply prefix_empty in H as ->. auto.
  - apply prefix_inv in H. destruct t as [|x t]; [auto|]. destruct H as [-> H].
    apply prefix_empty in H as ->. auto.
Qed.

Lemma exact_additive tok :
  exact_token tok -> Str.substring_of (snd tok) "+-" = true ->
  exists o, additive o = true /\ tok = (OPERATOR, symbol o).
Proof.
  unfold exact_token. intros He Hs.
  apply substring_of_two in Hs as [Ht|[Ht|[Ht|Ht]]]; rewrite Ht in He; vm_compute in He.
  - discriminate He.
  - exists Add. split; [reflexivity|]. now injection He.
  - exists Sub. split; [reflexivity|]. now injection He.
  - discriminate He.
Qed.

Lemma exact_multiplicative tok :
  exact_token tok -> Str.substring_of (snd tok) "*/" = true ->
  exists o, multiplicative o = true /\ tok = (OPERATOR, symbol o).
Proof.
  unfold exact_token. intros He Hs.
  apply substring_of_two in Hs as [Ht|[Ht|[Ht|Ht]]]; rewrite Ht in He; vm_compute in He.
  - discriminate He.
  - exists Mul. split; [reflexivity|]. now injection He.
  - exists Div. split; [reflexivity|]. now injection He.
  - discriminate He.
Qed.

Lemma exact_text tok text :
  exact_token tok -> snd tok = text ->
  Tokenizer.match_token text = Some (tok, EmptyString).
Proof. unfold exact_token. now intros He <-. Qed.

Lemma exact_number tok :
  exact_token tok -> fst tok = NUMBER -> is_literal (snd tok) = true.
Proof.
  intros He Hk. unfold exact_token in He. destruct tok as [k text]. cbn [fst snd] in *.
  subst k. apply match_token_number in He. unfold is_literal. now rewrite He.
Qed.

Lemma exact_ok toks :
  Forall exact_token toks -> Forall (fun tok => token_ok tok = true) toks.
Proof.
  intros H. eapply Forall_impl; [exact H|].
  intros tok He. eapply Invariants.match_token_ok, He.
Qed.

Lemma bind_returns (m : call) (k : node -> call) self t self' :
  bind m k self = Some (Return t, self') ->
  exists t1 self1, m self = Some (Return t1, self1) /\ k t1 self1 = Some (Return t, self').
Proof.
  unfold bind. destruct (m self) as [[[t1|e] self1]|]; [eauto|discriminate|discriminate].
Qed.

Lemma catch_returns (m : call) self t self' :
  catch_syntax_error m self = Some (Return t, self') ->
  m self = Some (Return t, self') \/ t = None_node.
Proof.
  unfold catch_syntax_error. destruct (m self) as [[[t1|e] self1]|]; [auto| |discriminate].
  destruct e; try discriminate. intros [= <- _]. now right.
Qed.

Lemma reads_next toks i j k l0 l1 l o e0 e2 :
  reads toks i j l0 e0 ->
  toks !! j = Some (OPERATOR, symbol o) ->
  reads toks (S j) k l1 e2 ->
  (forall ts0 ts2, derives l0 ts0 e0 -> derives l1 ts2 e2 ->
                   derives l (ts0 ++ (OPERATOR, symbol o) :: ts2) (Binary o e0 e2)) ->
  reads toks i k l (Binary o e0 e2).
Proof.
  intros (ts0 & Hs0 & -> & Hd0) Hop (ts2 & Hs2 & -> & Hd2) Hbuild.
  exists (ts0 ++ (OPERATOR, symbol o) :: ts2). split; [|split; [|now apply Hbuild]].
  - apply Completeness.sits_app. split; [exact Hs0|]. split; assumption.
  - rewrite length_app. simpl. lia.
Qed.

(** One round of either loop: [sub] reads the operand, of level [l1];
    [loop] goes on with the tree built; the trees are of level [l]. *)
Lemma extended_round n set l l1 (sub : call) (loop : node -> call) :
  (set = "+-" /\ l = Expression /\ l1 = Term /\ sub = parse_term n
   /\ loop = expression_loop n)
  \/ (set = "*/" /\ l = Term /\ l1 = Factor /\ sub = parse_factor n /\ loop = term_loop n) ->
  (forall self, Forall exact_token (tokens self) -> accepted l1 self (sub self)) ->
  (forall self t0 i e0,
      Forall exact_token (tokens self) -> t0 = tree e0 ->
      reads (tokens self) i (pos self) l e0 -> extended l i self (loop t0 self)) ->
  forall self t0 i e0,
    Forall exact_token (tokens self) -> t0 = tree e0 ->
    reads (tokens self) i (pos self) l e0 ->
    extended l i self
      match peek self with
      | Some tok =>
          if Str.substring_of (snd tok) set then
            bind sub (fun right => loop (bin_op (snd tok) t0 right)) (consume self)
          else Some (Return t0, self)
      | None => Some (Return t0, self)
      end.
Proof.
  intros Hwhich Hsub Hloop self t0 i e0 Hex -> Hreads t self' Hout Herr.
  destruct (peek self) as [tok|] eqn:Hpeek; [|injection Hout as <- <-; eauto].
  destruct (Str.substring_of (snd tok) set) eqn:Hset; [|injection Hout as <- <-; eauto].
  assert (Htok : exact_token tok).
  { revert Hex. rewrite Forall_lookup. intros Hall. exact (Hall _ _ Hpeek). }
  apply bind_returns in Hout as (tr & self1 & Hr & Hl).
  pose proof (exact_ok _ Hex) as Hok.
  destruct (Invariants.parser_sound n) as (_ & Sel & St & Stl & Sf).
  assert (Hkept : tokens self1 = tokens self
                  /\ (error_is_true self1 = false -> tree_ok tr = true)
                  /\ error_is_true self1 = false
                  /\ exists o, tok = (OPERATOR, symbol o)
                       /\ (forall e2 ts0 ts2, derives l ts0 e0 -> derives l1 ts2 e2 ->
                             derives l (ts0 ++ (OPERATOR, symbol o) :: ts2) (Binary o e0 e2))).
  { destruct Hwhich as [(-> & -> & -> & -> & ->)|(-> & -> & -> & -> & ->)].
    - pose proof (St (consume self) Hok) as S1. rewrite Hr in S1.
      destruct S1 as (Ht1 & _ & Htr1).
      pose proof (Sel self1 (bin_op (snd tok) (tree e0) tr)) as S2.
      destruct (exact_additive tok Htok Hset) as (o & Ho & Heq).
      assert (Herr1 : error_is_true self1 = false).
      { destruct (error_is_true self1) eqn:E; [|reflexivity].
        rewrite Hl in S2. destruct S2 as (_ & Hmono & _).
        - now rewrite Ht1.
        - discriminate.
        - rewrite Hmono in Herr; [discriminate|exact E]. }
      repeat split; try assumption. exists o. split; [exact Heq|].
      intros e2 ts0 ts2 H0 H2. now apply D_additive.
    - pose proof (Sf (consume self) Hok) as S1. rewrite Hr in S1.
      destruct S1 as (Ht1 & _ & Htr1).
      pose proof (Stl self1 (bin_op (snd tok) (tree e0) tr)) as S2.
      destruct (exact_multiplicative tok Htok Hset) as (o & Ho & Heq).
      assert (Herr1 : error_is_true self1 = false).
      { destruct (error_is_true self1) eqn:E; [|reflexivity].
        rewrite Hl in S2. destruct S2 as (_ & Hmono & _).
        - now rewrite Ht1.
        - discriminate.
        - rewrite Hmono in Herr; [discriminate|exact E]. }
      repeat split; try assumption. exists o. split; [exact Heq|].
      intros e2 ts0 ts2 H0 H2. now apply D_multiplicative. }
  destruct Hkept as (Ht1 & _ & Herr1 & o & -> & Hbuild).
  destruct (Hsub (consume self) Hex tr self1 Hr Herr1) as (e2 & -> & Hreads2).
  cbn [snd] in Hl. cbn [tokens pos consume] in Hreads2.
  assert (Hnew : reads (tokens self1) i (pos self1) l (Binary o e0 e2)).
  { rewrite Ht1. eapply reads_next; [exact Hreads|exact Hpeek|exact Hreads2|].
    intros ts0 ts2. apply Hbuild. }
  destruct (Hloop self1 (bin_op (symbol o) (tree e0) (tree e2)) i (Binary o e0 e2))
    with (t := t) (self' := self') as (e & -> & He); trivial.
  - now rewrite Ht1.
  - exists e. split; [reflexivity|]. now rewrite <- Ht1.
Qed.

Lemma reads_lift toks i j l0 l e :
  (forall ts, derives l0 ts e -> derives l ts e) ->
  reads toks i j l0 e -> reads toks i j l e.
Proof. intros H (ts & Hs & Hj & Hd). exists ts. auto. Qed.

(** A method that is its operand's method followed by its loop. *)
Lemma accepted_sequence n l l1 (sub : call) (loop : node -> call) :
  (l = Expression /\ l1 = Term /\ sub = parse_term n /\ loop = expression_loop n)
  \/ (l = Term /\ l1 = Factor /\ sub = parse_factor n /\ loop = term_loop n) ->
  (forall self, Forall exact_token (tokens self) -> accepted l1 self (sub self)) ->
  (forall self t0 i e0,
      Forall exact_token (tokens self) -> t0 = tree e0 ->
      reads (tokens self) i (pos self) l e0 -> extended l i self (loop t0 self)) ->
  forall self, Forall exact_token (tokens self) -> accepted l self (bind sub loop self).
Proof.
  intros Hwhich Hsub Hloop self Hex t self' Hout Herr.
  apply bind_returns in Hout as (t1 & self1 & H1 & H2).
  pose proof (exact_ok _ Hex) as Hok.
  destruct (Invariants.parser_sound n) as (_ & Sel & St & Stl & Sf).
  assert (Hkept : tokens self1 = tokens self /\ error_is_true self1 = false
                  /\ forall e ts, derives l1 ts e -> derives l ts e).
  { destruct Hwhich as [(-> & -> & -> & ->)|(-> & -> & -> & ->)].
    - pose proof (St self Hok) as S1. rewrite H1 in S1. destruct S1 as (Ht1 & _ & Htr1).
      pose proof (Sel self1 t1) as S2. rewrite H2 in S2.
      split; [exact Ht1|]. split; [|intros e ts; apply D_term].
      destruct (error_is_true self1) eqn:E; [|reflexivity].
      destruct S2 as (_ & Hmono & _); [now rewrite Ht1|discriminate|].
      rewrite Hmono in Herr; [discriminate|exact E].
    - pose proof (Sf self Hok) as S1. rewrite H1 in S1. destruct S1 as (Ht1 & _ & Htr1).
      pose proof (Stl self1 t1) as S2. rewrite H2 in S2.
      split; [exact Ht1|]. split; [|intros e ts; apply D_factor].
      destruct (error_is_true self1) eqn:E; [|reflexivity].
      destruct S2 as (_ & Hmono & _); [now rewrite Ht1|discriminate|].
      rewrite Hmono in Herr; [discriminate|exact E]. }
  destruct Hkept as (Ht1 & Herr1 & Hlift).
  destruct (Hsub self Hex t1 self1 H1 Herr1) as (e1 & -> & Hreads1).
  destruct (Hloop self1 (tree e1) (pos self) e1) with (t := t) (self' := self')
    as (e & -> & He); trivial.
  - now rewrite Ht1.
  - rewrite Ht1. eapply reads_lift; [|exact Hreads1]. intros ts. apply Hlift.
  - exists e. split; [reflexivity|]. now rewrite <- Ht1.
Qed.

(** Whatever a method returns with no error recorded is the tree of what
    the grammar makes of the tokens the method went over. *)
Lemma parser_accepts n :
  (forall self, Forall exact_token (tokens self) ->
                accepted Expression self (parse_expression n self))
  /\ (forall self t0 i e0,
         Forall exact_token (tokens self) -> t0 = tree e0 ->
         reads (tokens self) i (pos self) Expression e0 ->
         extended Expression i self (expression_loop n t0 self))
  /\ (forall self, Forall exact_token (tokens self) ->
                   accepted Term self (parse_term n self))
  /\ (forall self t0 i e0,
         Forall exact_token (tokens self) -> t0 = tree e0 ->
         reads (tokens self) i (pos self) Term e0 ->
         extended Term i self (term_loop n t0 self))
  /\ (forall self, Forall exact_token (tokens self) ->
                   accepted Factor self (parse_factor n self)).
Proof.
  induction n as [|n (IHe & IHel & IHt & IHtl & IHf)].
  { repeat split; intros; intros t self' Hnone; discriminate Hnone. }
  repeat split.
  - intros self Hex t self' Hout Herr.
    pose proof (proj1 (Invariants.parser_sound (S n)) self (exact_ok _ Hex)) as Hs.
    rewrite Hout in Hs. destruct Hs as (_ & _ & Htree). specialize (Htree Herr).
    cbn [parse_expression] in Hout. apply catch_returns in Hout as [Hout| ->];
      [|discriminate Htree].
    eapply (accepted_sequence n Expression Term); eauto 10.
  - intros self t0 i e0 Hex Ht0 Hreads. cbn [expression_loop].
    eapply (extended_round n "+-" Expression Term); eauto 10.
  - intros self Hex. cbn [parse_term].
    eapply (accepted_sequence n Term Factor); eauto 10.
  - intros self t0 i e0 Hex Ht0 Hreads. cbn [term_loop].
    eapply (extended_round n "*/" Term Factor); eauto 10.
  - intros self Hex t self' Hout Herr. cbn [parse_factor] in Hout.
    destruct (peek self) as [tok|] eqn:Hpeek; [|discriminate Hout].
    assert (Htok : exact_token tok).
    { revert Hex. rewrite Forall_lookup. intros Hall. exact (Hall _ _ Hpeek). }
    assert (Hone : forall e, derives Factor [tok] e ->
                             reads (tokens self) (pos self) (pos (consume self)) Factor e).
    { intros e Hd. exists [tok]. repeat split; [exact Hpeek|simpl; lia|exact Hd]. }
    assert (Hparen : fst tok <> NUMBER -> fst tok <> IDENTIFIER ->
              (if String.eqb (snd tok) "(" then
                 bind (parse_expression n)
                   (fun expr self' =>
                      match peek self' with
                      | Some tok' =>
                          if String.eqb (snd tok') ")" then Some (Return expr, consume self')
                          else Some (Raise (SyntaxError "Unmatched parenthesis"), self')
                      | None => Some (Raise (SyntaxError "Unmatched parenthesis"), self')
                      end) (consume self)
               else Some (Raise (SyntaxError ("Unexpected token: " +:+ Repr.tuple tok)), self))
              = Some (Return t, self') ->
              exists e, t = tree e /\ reads (tokens self) (pos self) (pos self') Factor e).
    { intros _ _ H. destruct (String.eqb (snd tok) "(") eqn:Hopen; [|discriminate H].
      apply String.eqb_eq in Hopen.
      pose proof (exact_text tok "(" Htok Hopen) as Hm. vm_compute in Hm.
      injection Hm as Htokeq.
      apply bind_returns in H as (expr & self1 & He & Hk).
      destruct (peek self1) as [tok'|] eqn:Hpeek'; [|discriminate Hk].
      destruct (String.eqb (snd tok') ")") eqn:Hclose; [|discriminate Hk].
      injection Hk as <- <-. apply String.eqb_eq in Hclose.
      pose proof (proj1 (Invariants.parser_sound n) (consume self) (exact_ok _ Hex)) as Hs.
      rewrite He in Hs. destruct Hs as (Ht1 & _ & _).
      assert (Htok' : exact_token tok').
      { revert Hex. rewrite Forall_lookup. intros Hall.
        unfold peek in Hpeek'. rewrite Ht1 in Hpeek'. exact (Hall _ _ Hpeek'). }
      pose proof (exact_text tok' ")" Htok' Hclose) as Hm'. vm_compute in Hm'.
      injection Hm' as Htokeq'.
      destruct (IHe (consume self) Hex expr self1 He Herr) as (e & -> & ts & Hs & Hj & Hd).
      exists e. split; [reflexivity|].
      exists ((PAREN, "(") :: ts ++ [(PAREN, ")")]). split; [|split].
      - split; [now rewrite Htokeq|].
        apply Completeness.sits_app. split; [exact Hs|].
        split; [|exact I]. cbn [pos consume] in Hj. rewrite <- Hj.
        unfold peek in Hpeek'. rewrite Ht1 in Hpeek'. now rewrite Htokeq'.
      - cbn [pos consume] in *. rewrite Hj. simpl. rewrite length_app. simpl. lia.
      - now apply D_paren. }
    destruct tok as [k text]. cbn [fst snd] in *.
    destruct k; try (apply Hparen; [discriminate|discriminate|exact Hout]).
    + injection Hout as <- <-. exists (Literal text). split; [reflexivity|].
      apply Hone. apply D_number. now apply (exact_number (NUMBER, text)).
    + injection Hout as <- <-. exists (Name text). split; [reflexivity|].
      apply Hone. apply D_identifier.
Qed.

End ParserSoundness.

(** X12.  What the parser accepts is an expression of the grammar: if
    [parse_expression], on the tokens of a text, returns a tree and has
    recorded no error, then the tokens up to the cursor are an expression
    of the grammar and the tree is the tree of its structure.  With X11:
    the trees returned without error are exactly the trees of the
    expressions the tokens start with. *)
Theorem accepted_tokens_are_an_expression line t self' :
  Parser.run_parse_expression (Parser.init (Tokenizer.tokenize line)) = Some (Return t, self') ->
  Parser.error_is_true self' = false ->
  exists e ts suf,
    Tokenizer.tokenize line = ts ++ suf
    /\ Parser.pos self' = length ts
    /\ Grammar.derives Grammar.Expression ts e
    /\ t = Grammar.tree e.
Proof.
  intros Hrun Herr.
  destruct (ParserSoundness.parser_accepts
              (Parser.enough (Parser.ahead (Parser.init (Tokenizer.tokenize line)))))
    as (He & _).
  destruct (He (Parser.init (Tokenizer.tokenize line))
              (finditer_exact _ _) t self' Hrun Herr) as (e & -> & ts & Hs & Hj & Hd).
  destruct (sits_prefix _ _ Hs) as [suf Hsuf].
  exists e, ts, suf. repeat split; trivial.
Qed.

Lemma accepted_tokens_are_an_expression_witness :
  exists e ts suf,
    Tokenizer.tokenize "(1 + x) * 2 y" = ts ++ suf
    /\ Parser.pos (Parser.mk (Tokenizer.tokenize "(1 + x) * 2 y") 7 None) = length ts
    /\ Grammar.derives Grammar.Expression ts e
    /\ bin_op "*" (bin_op "+" (number "1") (identifier "x")) (number "2") = Grammar.tree e.
Proof.
  apply (accepted_tokens_are_an_expression "(1 + x) * 2 y"
           (bin_op "*" (bin_op "+" (number "1") (identifier "x")) (number "2"))
           (Parser.mk (Tokenizer.tokenize "(1 + x) * 2 y") 7 None));
    reflexivity.
Defined.

(** *** The texts of the parsing errors *)

Module ParserErrors.
Import Parser.

Lemma names_bind (m : call) (k : node -> call) self :
  names_errors self (m self) ->
  (forall t self1, tokens self1 = tokens self -> error_named self1 ->
                   names_errors self1 (k t self1)) ->
  names_errors self (bind m k self).
Proof.
  unfold bind. intros Hm Hk.
  destruct (m self) as [[[t|e] self1]|]; [|exact Hm|exact I].
  destruct Hm as (Ht & Hn & _). specialize (Hk t self1 Ht Hn).
  unfold names_errors in *. rewrite <- Ht. exact Hk.
Qed.

Lemma names_catch (m : call) self :
  names_errors self (m self) -> names_errors self (catch_syntax_error m self).
Proof.
  unfold catch_syntax_error. intros Hm.
  destruct (m self) as [[[t|e] self1]|]; [exact Hm| |exact I].
  destruct e; try exact Hm.
  destruct Hm as (Ht & Hn & Hmsg). split; [exact Ht|]. split; [|exact I].
  unfold error_named. cbn. now rewrite Ht.
Qed.

Lemma names_return self t :
  error_named self -> names_errors self (Some (Return t, self)).
Proof. intros H. split; [reflexivity|]. split; [exact H|exact I]. Qed.

(** Every method keeps the recorded error such a text and raises no
    [SyntaxError] with another. *)
Lemma names n :
  (forall self, error_named self -> names_errors self (parse_expression n self))
  /\ (forall self t, error_named self -> names_errors self (expression_loop n t self))
  /\ (forall self, error_named self -> names_errors self (parse_term n self))
  /\ (forall self t, error_named self -> names_errors self (term_loop n t self))
  /\ (forall self, error_named self -> names_errors self (parse_factor n self)).
Proof.
  induction n as [|n (IHe & IHel & IHt & IHtl & IHf)].
  { repeat split; intros; exact I. }
  split; [|split; [|split; [|split]]].
  - intros self Hn. cbn [parse_expression]. apply names_catch.
    apply names_bind; [now apply IHt|]. intros t self1 _ Hn1. now apply IHel.
  - intros self t Hn. cbn [expression_loop].
    destruct (peek self) as [tok|]; [|now apply names_return].
    destruct (Str.substring_of (snd tok) "+-"); [|now apply names_return].
    apply (names_bind _ _ (consume self)); [now apply IHt|].
    intros rhs self1 _ Hn1. now apply IHel.
  - intros self Hn. cbn [parse_term].
    apply names_bind; [now apply IHf|]. intros t self1 _ Hn1. now apply IHtl.
  - intros self t Hn. cbn [term_loop].
    destruct (peek self) as [tok|]; [|now apply names_return].
    destruct (Str.substring_of (snd tok) "*/"); [|now apply names_return].
    apply (names_bind _ _ (consume self)); [now apply IHf|].
    intros rhs self1 _ Hn1. now apply IHtl.
  - intros self Hn. cbn [parse_factor].
    destruct (peek self) as [tok|] eqn:Hpeek;
      [|split; [reflexivity|split; [exact Hn|exact I]]].
    assert (Hin : In tok (tokens self)).
    { apply list_elem_of_In. eapply list_elem_of_lookup_2. exact Hpeek. }
    assert (Hother : fst tok <> NUMBER -> fst tok <> IDENTIFIER ->
              names_errors self
                (if String.eqb (snd tok) "(" then
                   bind (parse_expression n)
                     (fun expr self' =>
                        match peek self' with
                        | Some tok' =>
                            if String.eqb (snd tok') ")" then Some (Return expr, consume self')
                            else Some (Raise (SyntaxError "Unmatched parenthesis"), self')
                        | None => Some (Raise (SyntaxError "Unmatched parenthesis"), self')
                        end) (consume self)
                 else Some (Raise (SyntaxError ("Unexpected token: " +:+ Repr.tuple tok)),
                            self))).
    { intros H1 H2. destruct (String.eqb (snd tok) "(") eqn:Hopen.
      - apply (names_bind _ _ (consume self)); [now apply IHe|].
        intros expr self1 _ Hn1.
        destruct (peek self1) as [tok'|];
          [destruct (String.eqb (snd tok') ")")|];
          (split; [reflexivity|]; split; [exact Hn1|]); try exact I; now left.
      - split; [reflexivity|]. split; [exact Hn|]. right. exists tok.
        repeat split; trivial. intros Heq. rewrite Heq in Hopen. discriminate Hopen. }
    destruct (fst tok) eqn:Hk; try (apply Hother; discriminate).
    + now apply (names_return (consume self)).
    + now apply (names_return (consume self)).
Qed.

End ParserErrors.

Lemma is_operator_symbol c :
  Chars.is_operator c = true -> exists o, String c EmptyString = Grammar.symbol o.
Proof.
  destruct c as [[] [] [] [] [] [] [] []]; vm_compute; intros H;
    first [discriminate H
          |exists Grammar.Add; reflexivity
          |exists Grammar.Sub; reflexivity
          |exists Grammar.Mul; reflexivity
          |exists Grammar.Div; reflexivity].
Qed.

Lemma is_paren_cases c :
  Chars.is_paren c = true -> c = "("%char \/ c = ")"%char.
Proof.
  destruct c as [[] [] [] [] [] [] [] []]; vm_compute; intros H;
    first [discriminate H|left; reflexivity|right; reflexivity].
Qed.

(** The tokens of the tokenizer that [parse_factor] does not expect. *)
Lemma unexpected_token tok :
  exact_token tok ->
  fst tok <> NUMBER -> fst tok <> IDENTIFIER -> fst tok <> ASSIGN -> snd tok <> "(" ->
  (exists o, tok = (OPERATOR, Grammar.symbol o)) \/ tok = (PAREN, ")").
Proof.
  intros He H1 H2 H3 H4.
  pose proof (Invariants.match_token_ok _ _ _ He) as Hok.
  destruct (exact_token_kind tok He) as (c & r & Ht & Hkind & Hr & _).
  destruct tok as [k text]. unfold token_ok in Hok. cbn [fst snd] in *. subst text.
  destruct (Chars.is_digit c) eqn:Hd; [congruence|].
  destruct (Chars.is_operator c) eqn:Ho.
  - left. destruct (is_operator_symbol c Ho) as [o Hsym]. exists o.
    destruct k; try discriminate Hok. destruct r; [|discriminate Hok]. now rewrite Hsym.
  - destruct (Chars.is_paren c) eqn:Hp.
    + right. subst k.
      destruct (is_paren_cases c Hp) as [-> | ->]; rewrite (Hr eq_refl eq_refl) in *;
        [now contradiction H4|reflexivity].
    + destruct (Chars.is_letter c); congruence.
Qed.

Lemma tokenize_plain s tok :
  Str.contains "=" s = false -> In tok (Tokenizer.tokenize s) ->
  exact_token tok /\ fst tok <> ASSIGN.
Proof.
  intros Hc Hin.
  pose proof (finditer_exact (String.length s) s) as Hall.
  rewrite List.Forall_forall in Hall. pose proof (Hall tok Hin) as He.
  split; [exact He|]. intros Hk.
  rewrite (assign_token_text tok He Hk) in Hin.
  pose proof (in_finditer_contains _ _ _ "="%char Hin eq_refl). congruence.
Qed.

Lemma parser_input_tokens line tok :
  In tok (parser_input line) -> exact_token tok /\ fst tok <> ASSIGN.
Proof.
  unfold parser_input, Tokenizer.tokenize_to_file.
  destruct (Str.contains "=" line) eqn:Hc; apply tokenize_plain;
    [apply expression_of_plain|exact Hc].
Qed.

Lemma parser_input_exact line : Forall exact_token (parser_input line).
Proof.
  unfold parser_input, Tokenizer.tokenize_to_file.
  destruct (Str.contains "=" line); apply finditer_exact.
Qed.

(** Either branch of [process_expression] is the parser and the evaluator
    run on the tokens the driver hands to the parser. *)
Lemma process_expression_by_input line env :
  process_expression line env
  = match process_plain (parser_input line) env with
    | Some (Result v, env') =>
        if Str.contains "=" line
        then Some (Assigned (variable_of line) v, SymbolTable.set env (variable_of line) v)
        else Some (Result v, env')
    | other => other
    end.
Proof.
  unfold process_expression, parser_input.
  destruct (Str.contains "=" line) eqn:Hc.
  - rewrite (assignment_parts_spec _ Hc), process_assignment_as_plain.
    now destruct (process_plain _ env) as [[[] ?]|].
  - now destruct (process_plain _ env) as [[[] ?]|].
Qed.

Lemma process_plain_cases toks env o env' :
  process_plain toks env = Some (o, env') ->
  exists r parser,
    Parser.run_parse_expression (Parser.init toks) = Some (r, parser)
    /\ match o with
       | Parsing_error err => Parser.error_is_true parser = true /\ err = Parser.error parser
       | Evaluation_error e =>
           Parser.error_is_true parser = false
           /\ exists t, r = Return t /\ evaluate t env = Raise e
       | Result v =>
           Parser.error_is_true parser = false
           /\ exists t, r = Return t /\ evaluate t env = Return v
       | Uncaught e => r = Raise e
       | Assigned _ _ => False
       end.
Proof.
  unfold process_plain, Parser.parse_to_file, Parser.bind.
  destruct (Parser.run_parse_expression (Parser.init toks)) as [[[t|e] parser]|];
    [| |discriminate].
  - destruct (Parser.error_is_true parser) eqn:He; rewrite ?He.
    + intros [= <- <-]. exists (Return t), parser. auto.
    + destruct (evaluate t env) eqn:Hv; intros [= <- <-]; exists (Return t), parser; eauto 6.
  - intros [= <- <-]. eauto.
Qed.

(** What a line's outcome other than an assignment says of the parser's
    run on the tokens the driver handed to it. *)
Lemma process_expression_cases line env o env' :
  process_expression line env = Some (o, env') ->
  match o with
  | Assigned _ _ | Result _ => True
  | _ => process_plain (parser_input line) env = Some (o, env')
  end.
Proof.
  rewrite process_expression_by_input.
  destruct (process_plain (parser_input line) env) as [[o0 env0]|]; [|discriminate].
  destruct o0; [ | destruct (Str.contains "=" line) | | | ];
    intros [= <- <-]; trivial.
Qed.

(** X13.  The parsing errors of a line: the text is "Unmatched
    parenthesis", or "Unexpected token: " followed by a token of those
    handed to the parser, as Python prints the tuple, and that token is
    one of the four operators or a closing parenthesis.  The symbol table
    is as it was. *)
Theorem parsing_errors_name_a_token line env err env' :
  process_expression line env = Some (Parsing_error err, env') ->
  env' = env
  /\ exists msg,
       err = Some msg
       /\ (msg = "Unmatched parenthesis"
           \/ exists tok,
                In tok (parser_input line)
                /\ ((exists o, tok = (OPERATOR, Grammar.symbol o)) \/ tok = (PAREN, ")"))
                /\ msg = "Unexpected token: " +:+ Repr.tuple tok).
Proof.
  intros H. apply process_expression_cases in H.
  split; [exact (process_plain_unchanged _ _ _ _ H)|].
  apply process_plain_cases in H as (r & parser & Hrun & Herr & ->).
  destruct (ParserErrors.names (Parser.enough (Parser.ahead (Parser.init (parser_input line)))))
    as (Hnames & _).
  specialize (Hnames (Parser.init (parser_input line)) I).
  unfold Parser.run_parse_expression in Hrun. rewrite Hrun in Hnames.
  destruct Hnames as (_ & Hn & _). unfold error_named in Hn.
  unfold Parser.error_is_true in Herr.
  destruct (Parser.error parser) as [msg|]; [|discriminate Herr].
  exists msg. split; [reflexivity|].
  destruct Hn as [->|(tok & Hin & H1 & H2 & H3 & ->)]; [now left|].
  right. exists tok.
  assert (Htoks : Parser.tokens parser = parser_input line).
  { pose proof (ParserFacts.run_parse_expression_advances (Parser.init (parser_input line)))
      as (r0 & self0 & Hrun0 & Htok0 & _).
    unfold Parser.run_parse_expression in Hrun0. rewrite Hrun in Hrun0.
    injection Hrun0 as _ <-. exact Htok0. }
  rewrite Htoks in Hin. split; [exact Hin|]. split; [|reflexivity].
  destruct (parser_input_tokens line tok Hin) as [He Ha].
  now apply unexpected_token.
Qed.

Lemma parsing_errors_name_a_token_witness :
  sample_table = sample_table
  /\ exists msg,
       Some "Unexpected token: ('OPERATOR', '*')" = Some msg
       /\ (msg = "Unmatched parenthesis"
           \/ exists tok,
                In tok (parser_input "y = 2 + * x")
                /\ ((exists o, tok = (OPERATOR, Grammar.symbol o)) \/ tok = (PAREN, ")"))
                /\ msg = "Unexpected token: " +:+ Repr.tuple tok).
Proof.
  apply (parsing_errors_name_a_token "y = 2 + * x" sample_table
           (Some "Unexpected token: ('OPERATOR', '*')") sample_table).
  reflexivity.
Defined.

(** *** The evaluation errors of a line *)

Lemma evaluate_raises tree env e :
  tree_ok tree = true -> evaluate tree env = Raise e ->
  (exists name, mentions name tree = true /\ SymbolTable.get env name = VNone
                /\ e = NameError ("Undefined variable: " +:+ name))
  \/ (mentions_division tree = true /\ e = division_by_zero).
Proof.
  revert e.
  induction tree as [text|x|op lhs IHl rhs IHr|]; intros e;
    cbn [tree_ok evaluate mentions mentions_division].
  - intros H. destruct (of_str_literal text H) as [v ->]. discriminate.
  - intros _. destruct (SymbolTable.get env x) eqn:E; [discriminate|].
    intros [= <-]. left. exists x. rewrite String.eqb_refl. auto.
  - intros H. apply andb_true_iff in H as [H Hr]. apply andb_true_iff in H as [Hop Hl].
    pose proof (Invariants.evaluate_ok lhs env Hl) as Ha.
    pose proof (Invariants.evaluate_ok rhs env Hr) as Hb.
    destruct (evaluate lhs env) as [a|e1] eqn:El.
    2:{ intros [= <-]. destruct (IHl e1 Hl eq_refl) as [(name & Hm & Hg & ->)|(Hd & ->)].
        - left. exists name. rewrite Hm. auto.
        - right. rewrite Hd, orb_true_r. auto. }
    destruct (evaluate rhs env) as [b|e2] eqn:Er.
    2:{ intros [= <-]. destruct (IHr e2 Hr eq_refl) as [(name & Hm & Hg & ->)|(Hd & ->)].
        - left. exists name. rewrite Hm, orb_true_r. auto.
        - right. rewrite Hd, !orb_true_r. auto. }
    destruct a as [x|]; [|contradiction]. destruct b as [y|]; [|contradiction].
    unfold is_arith in Hop.
    destruct (String.eqb op "+"); [cbn [arith]; discriminate|].
    destruct (String.eqb op "-"); [cbn [arith]; discriminate|].
    destruct (String.eqb op "*"); [cbn [arith]; discriminate|].
    destruct (String.eqb op "/") eqn:Hdiv; [|discriminate].
    cbn [arith]. unfold float_div. destruct (Float.is_zero y); [|discriminate].
    intros [= <-]. right. auto.
  - discriminate.
Qed.

(** The identifiers and the divisions of a tree are tokens of the text it
    was made of. *)
Lemma derives_mentions l ts e :
  Grammar.derives l ts e ->
  (forall name, mentions name (Grammar.tree e) = true -> In (IDENTIFIER, name) ts)
  /\ (mentions_division (Grammar.tree e) = true -> In (OPERATOR, "/") ts).
Proof.
  assert (Hdiv : forall o, String.eqb (Grammar.symbol o) "/" = true ->
                           (OPERATOR, Grammar.symbol o) = (OPERATOR, "/")).
  { intros o H. apply String.eqb_eq in H. now rewrite H. }
  induction 1 as [text Hlit|name|ts e _ [IHn IHd]|ts e _ IH
                 |o ts1 e1 ts2 e2 _ _ [IHn1 IHd1] _ [IHn2 IHd2]|ts e _ IH
                 |o ts1 e1 ts2 e2 _ _ [IHn1 IHd1] _ [IHn2 IHd2]];
    cbn [Grammar.tree mentions mentions_division]; try exact IH.
  - split; intros; discriminate.
  - split; [|discriminate]. intros x H. apply String.eqb_eq in H as ->. now left.
  - split; intros; right; apply in_or_app; left; auto.
  - split.
    + intros x H. apply orb_true_iff in H as [H|H]; apply in_or_app;
        [left|right; right]; auto.
    + rewrite !orb_true_iff. intros [[H|H]|H]; apply in_or_app;
        [right; left; now apply Hdiv|left; auto|right; right; auto].
  - split.
    + intros x H. apply orb_true_iff in H as [H|H]; apply in_or_app;
        [left|right; right]; auto.
    + rewrite !orb_true_iff. intros [[H|H]|H]; apply in_or_app;
        [right; left; now apply Hdiv|left; auto|right; right; auto].
Qed.

(** X14.  The evaluation errors of a line: a [NameError] naming an
    identifier that is a token of those handed to the parser and has no
    value in the symbol table, or the [ZeroDivisionError] of a float
    division, and then [/] is a token of those handed to the parser.  The
    symbol table is as it was.  So a line whose tokens hold no [/] and no
    identifier without a value has no evaluation error. *)
Theorem evaluation_errors_name_a_token line env e env' :
  process_expression line env = Some (Evaluation_error e, env') ->
  env' = env
  /\ ((exists name,
          In (IDENTIFIER, name) (parser_input line)
          /\ SymbolTable.get env name = VNone
          /\ e = NameError ("Undefined variable: " +:+ name))
      \/ (In (OPERATOR, "/") (parser_input line) /\ e = division_by_zero)).
Proof.
  intros H. apply process_expression_cases in H.
  split; [exact (process_plain_unchanged _ _ _ _ H)|].
  apply process_plain_cases in H as (r & parser & Hrun & Herr & t & -> & Hev).
  pose proof (Invariants.run_parse_expression_sound _
                (ParserSoundness.exact_ok _ (parser_input_exact line))) as Hs.
  rewrite Hrun in Hs. destruct Hs as (_ & _ & Htree). specialize (Htree Herr).
  destruct (ParserSoundness.parser_accepts
              (Parser.enough (Parser.ahead (Parser.init (parser_input line)))))
    as (Hacc & _).
  destruct (Hacc (Parser.init (parser_input line)) (parser_input_exact line) t parser
              Hrun Herr) as (e0 & -> & ts & Hsits & _ & Hd).
  destruct (sits_prefix _ _ Hsits) as [suf Hsuf]. cbn [Parser.tokens Parser.init] in Hsuf.
  destruct (derives_mentions _ _ _ Hd) as [Hnames Hdivs].
  destruct (evaluate_raises _ _ _ Htree Hev) as [(name & Hm & Hg & ->)|(Hm & ->)].
  - left. exists name. split; [|auto]. rewrite Hsuf. apply in_or_app. left. auto.
  - right. split; [|reflexivity]. rewrite Hsuf. apply in_or_app. left. auto.
Qed.

Lemma evaluation_errors_name_a_token_witness :
  sample_table = sample_table
  /\ ((exists name,
          In (IDENTIFIER, name) (parser_input "z = x * (y + 1)")
          /\ SymbolTable.get sample_table name = VNone
          /\ NameError "Undefined variable: y" = NameError ("Undefined variable: " +:+ name))
      \/ (In (OPERATOR, "/") (parser_input "z = x * (y + 1)")
          /\ NameError "Undefined variable: y" = division_by_zero)).
Proof.
  apply (evaluation_errors_name_a_token "z = x * (y + 1)" sample_table
           (NameError "Undefined variable: y") sample_table).
  reflexivity.
Defined.

(** ** The loop over the lines of a file *)

Lemma stripped_lines_cons raw rest :
  stripped_lines (raw :: rest)
  = match Str.strip raw with
    | EmptyString => stripped_lines rest
    | String c s => String c s :: stripped_lines rest
    end.
Proof. unfold stripped_lines. cbn [map List.filter]. now destruct (Str.strip raw). Qed.

(** X15.  The loop over the lines of a file looks at each line without
    the whitespace around it and passes over the lines that are blank: on
    the stripped, non-blank lines alone it does the same, writes the same
    and leaves the same symbol table. *)
Theorem blank_lines_and_margins_are_ignored expressions env :
  process_file expressions env = process_file (stripped_lines expressions) env.
Proof.
  revert env. induction expressions as [|raw rest IH]; intros env; [reflexivity|].
  rewrite stripped_lines_cons. cbn [process_file].
  destruct (Str.strip raw) as [|c s] eqn:Hs; [apply IH|].
  cbn [process_file]. rewrite <- Hs, strip_strip, Hs.
  destruct (process_expression (String c s) env) as [[o env1]|]; [|reflexivity].
  now destruct o; rewrite ?IH.
Qed.

Lemma written_of_wrote entry b : written_of (wrote entry b) = entry :: written_of b.
Proof. now destruct b. Qed.

Lemma uncaught_is_type_error e :
  regular (Uncaught e) = true -> e = not_subscriptable.
Proof.
  destruct e; try discriminate. cbn [regular]. intros H.
  apply String.eqb_eq in H. now rewrite H.
Qed.

Lemma uncaught_keeps_table line env e env' :
  process_expression line env = Some (Uncaught e, env') -> env' = env.
Proof.
  intros H. apply process_expression_cases in H.
  exact (process_plain_unchanged _ _ _ _ H).
Qed.

(** X16.  The loop over the lines of a file always ends.  What it wrote
    is, for the stripped non-blank lines in their order, the outcome of
    [process_expression], each line on the symbol table the line before
    left; none of the outcomes written is an exception.  Either every
    such line has its entry, or the loop was left by the [TypeError] of
    the parser at the first line that raises it: the lines before have
    their entries, that line and the lines after it have none, and the
    lines after it were not processed. *)
Theorem batch_ends_at_the_first_exception expressions env :
  exists b env',
    process_file expressions env = Some (b, env')
    /\ process_lines (map fst (written_of b)) env = Some (map snd (written_of b), env')
    /\ Forall (fun entry => regular (snd entry) = true
                            /\ forall e, snd entry <> Uncaught e) (written_of b)
    /\ match b with
       | Finished written => map fst written = stripped_lines expressions
       | Aborted written e =>
           e = not_subscriptable
           /\ exists line rest,
                stripped_lines expressions = map fst written ++ line :: rest
                /\ process_expression line env' = Some (Uncaught e, env')
       end.
Proof.
  revert env. induction expressions as [|raw rest IH]; intros env.
  { exists (Finished []), env. repeat split. constructor. }
  rewrite stripped_lines_cons. cbn [process_file].
  destruct (Str.strip raw) as [|c s] eqn:Hs; [apply IH|].
  destruct (process_expression_total (String c s) env) as (o & env1 & Hpe).
  pose proof (process_expression_regular _ _ _ _ Hpe) as Hreg.
  assert (Hgo : (forall e, o <> Uncaught e) ->
            exists b env',
              match process_file rest env1 with
              | Some (b, final) => Some (wrote (String c s, o) b, final)
              | None => None
              end = Some (b, env')
              /\ process_lines (map fst (written_of b)) env
                 = Some (map snd (written_of b), env')
              /\ Forall (fun entry => regular (snd entry) = true
                                      /\ forall e, snd entry <> Uncaught e) (written_of b)
              /\ match b with
                 | Finished written => map fst written = String c s :: stripped_lines rest
                 | Aborted written e =>
                     e = not_subscriptable
                     /\ exists line rest0,
                          String c s :: stripped_lines rest = map fst written ++ line :: rest0
                          /\ process_expression line env' = Some (Uncaught e, env')
                 end).
  { intros Hno. destruct (IH env1) as (b & env' & Hpf & Hpl & Hall & Hb).
    exists (wrote (String c s, o) b), env'. rewrite Hpf.
    split; [reflexivity|]. rewrite written_of_wrote. cbn [map fst snd process_lines].
    rewrite Hpe, Hpl. split; [reflexivity|]. split; [constructor; auto|].
    destruct b as [written|written e]; cbn [wrote map fst].
    - now rewrite Hb.
    - destruct Hb as (He & line & rest0 & Heq & Hline). split; [exact He|].
      exists line, rest0. split; [|exact Hline]. now rewrite Heq. }
  rewrite Hpe.
  destruct o as [x v|v|err|e|e]; try (apply Hgo; discriminate).
  pose proof (uncaught_keeps_table _ _ _ _ Hpe) as ->.
  exists (Aborted [] e), env. split; [reflexivity|]. split; [reflexivity|].
  split; [constructor|]. split; [now apply uncaught_is_type_error|].
  exists (String c s), (stripped_lines rest). split; [reflexivity|exact Hpe].
Qed.
